(** * rsyncuptime: the status server (server.go)

    A shallow embedding of the health-check server: the classification of a
    probe result into a [CheckResult], the bounded per-module history kept
    in a Go slice, the capacity derived from the polling interval, the
    validation of module names and the [/status/] handler.

    Go strings are byte sequences and are modelled as [string] (a list of
    [ascii] bytes); Go's [int] and [time.Duration] are modelled as [Z]
    (64-bit platforms); slices are headers into a heap of backing arrays,
    so that sharing between a slice and its copies is explicit. A
    run-time panic is [None]: the division by zero and the allocation out
    of range in [NewStatusChecker], the ticker on an interval that is not
    positive in [StartPolling], a slice expression out of range. *)

From Stdlib Require Import ZArith Lia Ascii String List Bool.
From stdpp Require Import base option list strings gmap.

(** String concatenation unfolds under [simpl] in this development. *)
#[local] Arguments String.append : simpl nomatch.

(** ** The functions of Go's [strings] package that the server calls *)

Module GoStrings.

(** [strings.HasPrefix(s, prefix)]. *)
Fixpoint HasPrefix (s prefix : string) {struct prefix} : bool :=
  match prefix, s with
  | EmptyString, _ => true
  | String p prefix', String c s' => if Ascii.eqb c p then HasPrefix s' prefix' else false
  | String _ _, EmptyString => false
  end.

(** [s[n:]] for [n <= len(s)]. *)
Fixpoint skip (n : nat) (s : string) : string :=
  match n, s with
  | S n', String _ s' => skip n' s'
  | _, _ => s
  end.

(** [strings.TrimPrefix(s, prefix)]: [s] without the leading [prefix],
    or [s] itself when it does not start with [prefix]. *)
Definition TrimPrefix (s prefix : string) : string :=
  if HasPrefix s prefix then skip (String.length prefix) s else s.

(** [strings.Contains(s, substr)]: [substr] occurs at some offset of [s]. *)
Fixpoint Contains (s substr : string) : bool :=
  HasPrefix s substr ||
  match s with
  | EmptyString => false
  | String _ s' => Contains s' substr
  end.

(** [strings.Split(s, sep)] for a separator of one byte: the pieces
    between the occurrences of [sep]; [k] occurrences give [k + 1]
    pieces, so the result is never empty. *)
Fixpoint Split (s : string) (sep : ascii) : list string :=
  match s with
  | EmptyString => [EmptyString]
  | String c s' =>
      if Ascii.eqb c sep then EmptyString :: Split s' sep
      else match Split s' sep with
           | piece :: pieces => String c piece :: pieces
           | [] => [String c EmptyString]
           end
  end.

(** The white space of [unicode.IsSpace], as the byte sequences of its
    UTF-8 encoding: the six ASCII characters tab, line feed, vertical
    tab, form feed, carriage return and space, then U+0085, U+00A0,
    U+1680, U+2000 to U+200A, U+2028, U+2029, U+202F, U+205F, U+3000. *)
Definition asciiSpace (c : ascii) : bool :=
  let n := nat_of_ascii c in
  ((9 <=? n) && (n <=? 13)) || (n =? 32).

Definition space2 (c1 c2 : ascii) : bool :=
  (nat_of_ascii c1 =? 194) &&
  ((nat_of_ascii c2 =? 133) || (nat_of_ascii c2 =? 160)).

Definition space3 (c1 c2 c3 : ascii) : bool :=
  let n1 := nat_of_ascii c1 in
  let n2 := nat_of_ascii c2 in
  let n3 := nat_of_ascii c3 in
  ((n1 =? 225) && (n2 =? 154) && (n3 =? 128)) ||
  ((n1 =? 226) && (n2 =? 128) &&
     (((128 <=? n3) && (n3 <=? 138)) || (n3 =? 168) || (n3 =? 169) || (n3 =? 175))) ||
  ((n1 =? 226) && (n2 =? 129) && (n3 =? 159)) ||
  ((n1 =? 227) && (n2 =? 128) && (n3 =? 128)).

(** [strings.TrimLeftFunc(s, unicode.IsSpace)]: runes are decoded from
    the front; a byte that starts no white-space encoding (an invalid
    byte decodes to U+FFFD) stops the scan. *)
Fixpoint TrimLeftSpace (s : string) : string :=
  match s with
  | EmptyString => s
  | String c1 s1 =>
      if asciiSpace c1 then TrimLeftSpace s1
      else match s1 with
           | EmptyString => s
           | String c2 s2 =>
               if space2 c1 c2 then TrimLeftSpace s2
               else match s2 with
                    | EmptyString => s
                    | String c3 s3 => if space3 c1 c2 c3 then TrimLeftSpace s3 else s
                    end
           end
  end.

(** The same scan on the reversed string, for the right end: the last
    rune is white space exactly when the string ends with one of the
    encodings, here read back to front. *)
Fixpoint TrimLeftSpaceRev (s : string) : string :=
  match s with
  | EmptyString => s
  | String c1 s1 =>
      if asciiSpace c1 then TrimLeftSpaceRev s1
      else match s1 with
           | EmptyString => s
           | String c2 s2 =>
               if space2 c2 c1 then TrimLeftSpaceRev s2
               else match s2 with
                    | EmptyString => s
                    | String c3 s3 => if space3 c3 c2 c1 then TrimLeftSpaceRev s3 else s
                    end
           end
  end.

Definition TrimRightSpace (s : string) : string :=
  String.rev (TrimLeftSpaceRev (String.rev s)).

(** [strings.TrimSpace(s)]. *)
Definition TrimSpace (s : string) : string :=
  TrimRightSpace (TrimLeftSpace s).

(** [s == ""]. *)
Definition isEmpty (s : string) : bool :=
  match s with EmptyString => true | String _ _ => false end.

End GoStrings.

Import GoStrings.

(** ** Validation of module names *)

(** A range [lo-hi] of the character class. *)
Definition inRange (lo hi c : ascii) : bool :=
  (nat_of_ascii lo <=? nat_of_ascii c)%nat && (nat_of_ascii c <=? nat_of_ascii hi)%nat.

(** The class [[a-zA-Z0-9_.-]] of the pattern in [isValidModulePath]. *)
Definition moduleClass (c : ascii) : bool :=
  inRange "a" "z" c || inRange "A" "Z" c || inRange "0" "9" c ||
  Ascii.eqb c "_" || Ascii.eqb c "." || Ascii.eqb c "-".

(** [[a-zA-Z0-9_.-]*$]: class bytes up to the end of the text. Without the
    [m] flag, [$] holds at the end of the text only. *)
Fixpoint classToEnd (s : string) : bool :=
  match s with
  | EmptyString => true
  | String c s' => moduleClass c && classToEnd s'
  end.

(** [regexp.MatchString(`^[a-zA-Z0-9_.-]+$`, module)]: [^] pins the match to
    the start of the text, [+] asks for one class byte at least. A byte
    above 127 is part of a rune outside the class (or of an invalid
    encoding, read as U+FFFD), so the match fails on it. The pattern
    compiles, so the error result, which the code drops, is always nil. *)
Definition isValidModulePath (module : string) : bool :=
  match module with
  | EmptyString => false
  | String c s' => moduleClass c && classToEnd s'
  end.

(** ** Check results *)

Open Scope Z_scope.

(** [time.Time], as an abstract instant; [0] stands for the zero time. *)
Definition Time := Z.

Definition StatusOK : Z := 200.
Definition StatusBadRequest : Z := 400.
Definition StatusNotFound : Z := 404.
Definition StatusInternalServerError : Z := 500.

Record CheckResult := mkCheckResult {
  IsUp : bool;
  Message : string;
  Error : string;
  HTTPStatus : Z;
  RsyncExitCode : Z;
  RsyncOutput : string;
  Timestamp : Time
}.

(** The zero value of the struct. *)
Definition zeroCheckResult : CheckResult :=
  mkCheckResult false "" "" 0 0 "" 0%Z.

(** ** The result of running the probe *)

(** [syscall.WaitStatus] on Linux: a 32-bit word; the process exited
    when its low seven bits are zero, and then bits 8 to 15 hold the exit
    status. [ExitStatus] is [-1] for a process that did not exit (one
    killed by a signal). *)
Definition WaitStatus := Z.

Definition Exited (w : WaitStatus) : bool := Z.land w 127 =? 0.

Definition ExitStatus (w : WaitStatus) : Z :=
  if Exited w then Z.land (Z.shiftr w 8) 255 else -1.

(** The wait status of a process that called [exit(n)]. *)
Definition exitedWith (n : Z) : WaitStatus := Z.shiftl (Z.land n 255) 8.

(** The error of [cmd.CombinedOutput()] when it is not nil: an
    [*exec.ExitError], whose [Sys()] is a [syscall.WaitStatus] or not
    ([None]), or any other error (the command could not be started, or
    its output could not be read). *)
Inductive execError :=
| ExitError (sys : option WaitStatus)
| OtherError.

(** What [performCheck] gets back from the probe: the combined output and
    the error ([None] is nil: the command ran and exited with status 0). *)
Record ProbeResult := mkProbe {
  probeOut : string;
  probeErr : option execError
}.

(** ** Classification ([performCheck], up to the append) *)

Definition LF : ascii := ascii_of_nat 10.

Definition unknownModuleSentinel : string := "@ERROR: Unknown module".
Definition unknownErrorText : string := "Erro desconhecido do rsync".

(** The loop over [lines]: the first line that is not empty once trimmed,
    trimmed; [""] when the loop ends without a [break]. *)
Fixpoint firstLineOf (lines : list string) : string :=
  match lines with
  | [] => ""
  | l :: rest =>
      let l := TrimSpace l in
      if negb (isEmpty l) then l else firstLineOf rest
  end.

(** [firstLine] as it stands after the [if firstLine == ""]. *)
Definition firstLine (outputStr : string) : string :=
  let firstLine := firstLineOf (Split outputStr LF) in
  if isEmpty firstLine then unknownErrorText else firstLine.

(** The exit code read off the error: the [errors.As] and the type
    assertion on [Sys()] both have to succeed, else the field keeps its
    zero value. *)
Definition exitCodeOf (err : execError) : Z :=
  match err with
  | ExitError (Some status) => ExitStatus status
  | ExitError None => 0
  | OtherError => 0
  end.

(** [newResult], as [performCheck] has built it when it takes the lock.
    [now] is the value of [time.Now()]. *)
Definition classify (now : Time) (p : ProbeResult) : CheckResult :=
  let outputStr := probeOut p in
  match probeErr p with
  | None =>
      {| IsUp := true;
         Message := "Operational";
         Error := "";
         HTTPStatus := StatusOK;
         RsyncExitCode := 0;
         RsyncOutput := "";
         Timestamp := now |}
  | Some err =>
      {| IsUp := false;
         Message := "";
         Error := firstLine outputStr;
         HTTPStatus := if Contains outputStr unknownModuleSentinel
                       then StatusNotFound else StatusInternalServerError;
         RsyncExitCode := exitCodeOf err;
         RsyncOutput := TrimSpace outputStr;
         Timestamp := now |}
  end.

(** ** Slices over a heap of backing arrays *)

Module Slices.

(** A slice header: the backing array, the offset of the first element
    in it, the length and the capacity. *)
Record slice := mkSlice {
  arr : nat;
  off : nat;
  len : nat;
  cap : nat
}.

(** The most bytes one allocation may take: [maxAlloc] of the runtime,
    which is [2^48] where addresses have 48 bits (linux/amd64 and
    linux/arm64 among them). *)
Definition maxAlloc : Z := 2 ^ 48.

Section Ops.
Context {A : Type}.
(** The zero value of the element type, and the bytes one element takes. *)
Variable zero : A.
Variable elemSize : Z.
(** What the runtime adds to the capacity asked for when [append] has
    to move a slice of capacity [c] to a new array. The language only
    promises that the new array is large enough, so this is left open:
    the new capacity is the length needed plus [growSlack c]. *)
Variable growSlack : nat -> nat.

(** The heap is the list of the arrays allocated so far. Arrays are
    never freed: allocation adds one at the end, and the index of an
    array is its address. *)
Abbreviation heap := (list (list A)).

(** [make([]T, n, c)] on two [int]s. The runtime panics ([None]) when
    [n] is negative or above [c], and when [c] elements do not fit in
    [maxAlloc] bytes. *)
Definition make (h : heap) (n c : Z) : option (heap * slice) :=
  if (0 <=? n) && (n <=? c) && (c * elemSize <=? maxAlloc)
  then Some (h ++ [replicate (Z.to_nat c) zero],
             mkSlice (length h) 0 (Z.to_nat n) (Z.to_nat c))
  else None.

(** The elements a slice denotes in a heap. *)
Definition view (h : heap) (s : slice) : list A :=
  take (len s) (drop (off s) (default [] (h !! arr s))).

(** [append(s, x)]: in place when the capacity allows, else into a
    new array that receives the old elements first. The runtime panics
    ([None]) when the new array does not fit in [maxAlloc] bytes. *)
Definition append (h : heap) (s : slice) (x : A) : option (heap * slice) :=
  if (len s <? cap s)%nat then
    Some (alter (fun a => <[(off s + len s)%nat := x]> a) (arr s) h,
          mkSlice (arr s) (off s) (S (len s)) (cap s))
  else if Z.of_nat (S (len s) + growSlack (cap s)) * elemSize <=? maxAlloc then
    Some (h ++ [view h s ++ x :: replicate (growSlack (cap s)) zero],
          mkSlice (length h) 0 (S (len s)) (S (len s) + growSlack (cap s)))
  else None.

(** [s[lo:]]; a run-time panic ([None]) when [lo > len(s)]. *)
Definition from (s : slice) (lo : nat) : option slice :=
  if (lo <=? len s)%nat
  then Some (mkSlice (arr s) (off s + lo) (len s - lo) (cap s - lo))
  else None.

(** [copy(dst, src)]: the first [min(len(dst), len(src))] elements
    of [src] overwrite those of [dst]. *)
Definition copy (h : heap) (dst src : slice) : heap :=
  let elems := take (len dst) (view h src) in
  alter (fun a => take (off dst) a ++ elems ++ drop (off dst + length elems) a)
        (arr dst) h.

(** A slice is well formed in a heap when its window lies inside its
    backing array. *)
Definition wf (h : heap) (s : slice) : Prop :=
  exists a, h !! arr s = Some a /\
            (off s + cap s <= length a)%nat /\ (len s <= cap s)%nat.

End Ops.

End Slices.

Import Slices.

(** ** The checker of one module *)

(** The struct without its lock: the model runs the critical sections of
    [performCheck] and [ServeHTTP] one at a time, as the lock makes them. *)
Record StatusChecker := mkStatusChecker {
  moduleName : string;
  path : string;
  results : slice;
  maxResults : Z
}.

Abbreviation Heap := (list (list CheckResult)).

(** [unsafe.Sizeof(CheckResult{})] with words of 8 bytes: the [bool]
    padded to a word, three strings of two words each, two [int]s and
    the three words of a [time.Time]. *)
Definition sizeofCheckResult : Z := 96.

Definition Second : Z := 1000000000.
Definition Hour : Z := 3600 * Second.

(** A signed 64-bit result, wrapped around as the machine does. *)
Definition wrap64 (z : Z) : Z := (z + 2 ^ 63) mod 2 ^ 64 - 2 ^ 63.

Section Server.
(** The package variable [pollingInterval], a [time.Duration]: a signed
    64-bit count of nanoseconds. *)
Variable pollingInterval : Z.
Variable growSlack : nat -> nat.

(** [NewStatusChecker]. The division is Go's, which truncates and which
    panics ([None]) on a zero divisor; its result is converted to [int].
    The array of the history is allocated at once, so [make] panics when
    [maxResults] results do not fit in memory. *)
Definition NewStatusChecker (h : Heap) (moduleName : string)
  : option (Heap * StatusChecker) :=
  if pollingInterval =? 0 then None
  else
    let maxResults := wrap64 (Z.quot (24 * Hour) pollingInterval) in
    let maxResults := if maxResults <? 1 then 1 else maxResults in
    '(h, results) ← make zeroCheckResult sizeofCheckResult h 0 maxResults;
    Some (h, {| moduleName := moduleName;
                path := "/" ++ moduleName ++ "/";
                results := results;
                maxResults := maxResults |}).

(** [StartPolling], up to the start of its goroutine: [time.NewTicker]
    panics ([None]) on an interval that is not positive. The rounds of
    the goroutine are those of [runChecks] below. *)
Definition StartPolling : option unit :=
  if pollingInterval <=? 0 then None else Some tt.

(** [performCheck], from the probe's result on: the result is
    classified, appended, and the oldest entry is dropped when the
    history has outgrown [maxResults]. *)
Definition performCheck (now : Time) (p : ProbeResult) (st : Heap * StatusChecker)
  : option (Heap * StatusChecker) :=
  let '(h, sc) := st in
  let newResult := classify now p in
  '(h, rs) ← append zeroCheckResult sizeofCheckResult growSlack h (results sc) newResult;
  if Z.of_nat (len rs) >? maxResults sc then
    rs ← from rs 1;
    Some (h, {| moduleName := moduleName sc; path := path sc;
                results := rs; maxResults := maxResults sc |})
  else
    Some (h, {| moduleName := moduleName sc; path := path sc;
                results := rs; maxResults := maxResults sc |}).

(** The first [length ticks] rounds of the polling loop of
    [StartPolling], each with the time and the probe result it saw. *)
Fixpoint runChecks (ticks : list (Time * ProbeResult)) (st : Heap * StatusChecker)
  : option (Heap * StatusChecker) :=
  match ticks with
  | [] => Some st
  | (now, p) :: ticks => st ← performCheck now p st; runChecks ticks st
  end.

(** A checker created in the heap [h], after the rounds [ticks]. *)
Definition checkerAfter (h : Heap) (moduleName : string)
    (ticks : list (Time * ProbeResult)) : option (Heap * StatusChecker) :=
  st ← NewStatusChecker h moduleName; runChecks ticks st.

End Server.

(** The critical section of [ServeHTTP]: [resultsCopy] is a new slice of
    the same length, filled by [copy]. *)
Definition snapshot (h : Heap) (sc : StatusChecker) : option (Heap * slice) :=
  '(h, resultsCopy) ←
    make zeroCheckResult sizeofCheckResult h
         (Z.of_nat (len (results sc))) (Z.of_nat (len (results sc)));
  Some (copy h resultsCopy (results sc), resultsCopy).

(** ** Responses *)

(** The values the handlers put in their [map[string]interface{}]. *)
Inductive jvalue :=
| JBool (b : bool)
| JStr (s : string)
| JInt (n : Z)
| JTime (t : Time).

(** What a handler hands to [json.Encoder.Encode]: a nil slice (encoded
    as [null]), a slice of objects, or one object. *)
Inductive jbody :=
| JNull
| JArr (elems : list (gmap string jvalue))
| JObj (fields : gmap string jvalue).

(** An [http.ResponseWriter]: the header map, the status code once the
    header has been written, and the values encoded to the body so far. *)
Record ResponseWriter := mkResponse {
  header : gmap string string;
  wroteHeader : option Z;
  body : list jbody
}.

Definition newResponse : ResponseWriter := mkResponse ∅ None [].

(** [w.Header().Set(key, value)]. *)
Definition HeaderSet (key value : string) (w : ResponseWriter) : ResponseWriter :=
  mkResponse (<[key := value]> (header w)) (wroteHeader w) (body w).

(** [w.WriteHeader(code)]: the first call fixes the status; a later one
    is logged as superfluous and changes nothing. (The server passes 200,
    400, 404 and 500 only; net/http treats codes below 200 apart.) *)
Definition WriteHeader (code : Z) (w : ResponseWriter) : ResponseWriter :=
  match wroteHeader w with
  | Some _ => w
  | None => mkResponse (header w) (Some code) (body w)
  end.

(** [json.NewEncoder(w).Encode(v)]: one write to [w], which sends the
    header with [StatusOK] first when no status has been written. *)
Definition Encode (v : jbody) (w : ResponseWriter) : ResponseWriter :=
  let w := WriteHeader StatusOK w in
  mkResponse (header w) (wroteHeader w) (body w ++ [v]).

(** The status code the client receives. *)
Definition statusCode (w : ResponseWriter) : Z :=
  default StatusOK (wroteHeader w).

(** [writeJSONError]. *)
Definition writeJSONError (w : ResponseWriter) (statusCode : Z) (message path : string)
  : ResponseWriter :=
  let w := HeaderSet "Content-Type" "application/json" w in
  let w := WriteHeader statusCode w in
  Encode (JObj (<["code" := JInt statusCode]>
               (<["error" := JStr message]>
               (<["success" := JBool false]>
               (<["path" := JStr path]> ∅))))) w.

(** The map [ServeHTTP] builds for one result, assignment by assignment. *)
Definition resultEntry (scPath : string) (res : CheckResult) : gmap string jvalue :=
  let m : gmap string jvalue := ∅ in
  let m := <["is_up" := JBool (IsUp res)]> m in
  let m := <["success" := JBool (IsUp res)]> m in
  let m := if IsUp res then <["message" := JStr (Message res)]> m
           else <["error" := JStr (Error res)]> m in
  let m := <["http_status" := JInt (HTTPStatus res)]> m in
  let m := <["timestamp" := JTime (Timestamp res)]> m in
  let m := <["path" := JStr scPath]> m in
  let m := if negb (isEmpty (RsyncOutput res))
           then <["rsync_output" := JStr (RsyncOutput res)]> m else m in
  if negb (IsUp res) then
    let m := <["code" := JInt (RsyncExitCode res)]> m in
    if negb (RsyncExitCode res =? 0)
    then <["rsync_exit_code" := JInt (RsyncExitCode res)]> m else m
  else <["code" := JInt 0]> m.

(** [resp] after the loop: nil when there was nothing to append. *)
Definition respOf (scPath : string) (resultsCopy : list CheckResult) : jbody :=
  match resultsCopy with
  | [] => JNull
  | _ :: _ => JArr (resultEntry scPath <$> resultsCopy)
  end.

(** [StatusChecker.ServeHTTP]: the snapshot, then the response built from
    the copy alone. A panic of the [make] of the snapshot is [None]. *)
Definition ServeHTTP (h : Heap) (sc : StatusChecker) (w : ResponseWriter)
  : option (Heap * ResponseWriter) :=
  '(h, resultsCopy) ← snapshot h sc;
  let w := HeaderSet "Content-Type" "application/json" w in
  let copied := view h resultsCopy in
  let w := match last copied with
           | Some latest => WriteHeader (HTTPStatus latest) w
           | None => w
           end in
  Some (h, Encode (respOf (path sc) copied) w).

(** The handler of [/status/] in [main], with the registry [checkers] it
    closes over. *)
Definition statusHandler (checkers : gmap string StatusChecker) (h : Heap)
    (w : ResponseWriter) (urlPath : string) : option (Heap * ResponseWriter) :=
  let module := TrimPrefix urlPath "/status/" in
  if isEmpty module then
    Some (h, writeJSONError w StatusBadRequest
               "Module name cannot be empty. Path should be /status/<module-name>." urlPath)
  else if negb (isValidModulePath module) then
    Some (h, writeJSONError w StatusBadRequest
               ("Nome de módulo inválido: '" ++ module ++
                "'. Permitidos apenas letras, números, hífen, underline e ponto. Exemplo válido: debian-archive. Consulte a documentação.")
               urlPath)
  else
    match checkers !! module with
    | None =>
        Some (h, writeJSONError w StatusNotFound
                   ("Module '" ++ module ++ "' is not monitored.") urlPath)
    | Some checker => ServeHTTP h checker w
    end.

(** ** Configuration ([init]) *)

(** The three package variables. *)
Record Config := mkConfig {
  rsyncURL : string;
  pollingInterval : Z;
  serverPort : string
}.

Definition Minute : Z := 60 * Second.

(** The values the variables are declared with. *)
Definition defaultConfig : Config :=
  {| rsyncURL := "rsync://sagres.c3sl.ufpr.br/";
     pollingInterval := 5 * Minute;
     serverPort := "8080" |}.

(** [os.Getenv(key)]: the value of the variable, [""] when it is not set. *)
Definition Getenv (env : gmap string string) (key : string) : string :=
  default ""%string (env !! key).

(** The value of a decimal digit. *)
Definition digitOf (c : ascii) : option Z :=
  let n := nat_of_ascii c in
  if ((48 <=? n) && (n <=? 57))%nat then Some (Z.of_nat (n - 48)) else None.

(** The number a string of decimal digits denotes, after the digits
    already read ([acc]); [None] on any other byte. *)
Fixpoint parseDigits (acc : Z) (s : string) : option Z :=
  match s with
  | EmptyString => Some acc
  | String c s' => d ← digitOf c; parseDigits (10 * acc + d) s'
  end.

(** [strconv.Atoi(s)] with [None] for a non-nil error: an optional sign,
    then one decimal digit at least and nothing else; a number that does
    not fit [int] (64 bits) is a range error. *)
Definition Atoi (s : string) : option Z :=
  match s with
  | EmptyString => None
  | String c rest =>
      let neg := Ascii.eqb c "-" in
      let digits := if Ascii.eqb c "-" || Ascii.eqb c "+" then rest else s in
      if isEmpty digits then None
      else
        n ← parseDigits 0 digits;
        let n := if neg then - n else n in
        if (- 2 ^ 63 <=? n) && (n <? 2 ^ 63) then Some n else None
  end.

(** [init]: the variables after the environment has been read. The
    product of the seconds and [time.Second] is a 64-bit one. *)
Definition init (env : gmap string string) : Config :=
  let url := Getenv env "RSYNC_URL" in
  let intervalStr := Getenv env "POLLING_INTERVAL_SECONDS" in
  let port := Getenv env "PORT" in
  {| rsyncURL := if negb (isEmpty url) then url else rsyncURL defaultConfig;
     pollingInterval :=
       if negb (isEmpty intervalStr) then
         match Atoi intervalStr with
         | Some intervalSec =>
             if intervalSec >? 0 then wrap64 (intervalSec * Second)
             else pollingInterval defaultConfig
         | None => pollingInterval defaultConfig
         end
       else pollingInterval defaultConfig;
     serverPort := if negb (isEmpty port) then port else serverPort defaultConfig |}.

(** ** Discovery ([discoverModules]) *)

Definition CR : ascii := ascii_of_nat 13.

(** [bufio.MaxScanTokenSize]: a line of this many bytes does not fit the
    scanner's buffer. *)
Definition MaxScanTokenSize : Z := 65536.

(** A line without the carriage return it may end with. *)
Fixpoint dropCR (line : string) : string :=
  match line with
  | EmptyString => EmptyString
  | String c EmptyString => if Ascii.eqb c CR then EmptyString else line
  | String c rest => String c (dropCR rest)
  end.

(** The tokens of a [bufio.Scanner] with the default split function
    [ScanLines], given the pieces between the line feeds of its input:
    each piece is a line, but for the last, which is one only when it is
    not empty. The scan stops with [bufio.ErrTooLong] ([true]) at the
    first piece that does not fit the buffer. *)
Fixpoint scanPieces (pieces : list string) : list string * bool :=
  match pieces with
  | [] => ([], false)
  | piece :: rest =>
      if MaxScanTokenSize <=? Z.of_nat (String.length piece) then ([], true)
      else match rest with
           | [] => (if isEmpty piece then [] else [dropCR piece], false)
           | _ :: _ =>
               let '(lines, tooLong) := scanPieces rest in
               (dropCR piece :: lines, tooLong)
           end
  end.

(** What the loop [for scanner.Scan()] sees of a text, and whether
    [scanner.Err()] is not nil after it. *)
Definition scanLines (text : string) : list string * bool :=
  scanPieces (Split text LF).

(** The width in bytes of the white space a string starts with: 0 when
    it starts with none. *)
Definition spaceWidth (s : string) : nat :=
  match s with
  | EmptyString => 0
  | String c1 s1 =>
      if asciiSpace c1 then 1
      else match s1 with
           | EmptyString => 0
           | String c2 s2 =>
               if space2 c1 c2 then 2
               else match s2 with
                    | EmptyString => 0
                    | String c3 _ => if space3 c1 c2 c3 then 3 else 0
                    end
           end
  end.

(** A field in progress in front of the fields that follow it. *)
Definition consField (fields : string * list string) : list string :=
  if isEmpty fields.1 then fields.2 else fields.1 :: fields.2.

(** The bytes of [s] up to its first white space, and the fields of what
    comes after them. *)
Fixpoint fieldsFrom (s : string) : string * list string :=
  match s with
  | EmptyString => (EmptyString, [])
  | String c1 s1 =>
      if asciiSpace c1 then (EmptyString, consField (fieldsFrom s1))
      else match s1 with
           | EmptyString => (String c1 (fieldsFrom s1).1, (fieldsFrom s1).2)
           | String c2 s2 =>
               if space2 c1 c2 then (EmptyString, consField (fieldsFrom s2))
               else match s2 with
                    | EmptyString => (String c1 (fieldsFrom s1).1, (fieldsFrom s1).2)
                    | String c3 s3 =>
                        if space3 c1 c2 c3
                        then (EmptyString, consField (fieldsFrom s3))
                        else (String c1 (fieldsFrom s1).1, (fieldsFrom s1).2)
                    end
           end
  end.

(** [strings.Fields(s)]: the maximal runs of bytes of [s] that are not
    white space ([unicode.IsSpace]). *)
Definition Fields (s : string) : list string := consField (fieldsFrom s).

(** The loop of [discoverModules] over the lines: the first field of
    every line that is not blank. *)
Fixpoint moduleNames (lines : list string) : list string :=
  match lines with
  | [] => []
  | line :: lines =>
      let line := TrimSpace line in
      if isEmpty line then moduleNames lines
      else match Fields line with
           | part :: _ => part :: moduleNames lines
           | [] => moduleNames lines
           end
  end.

(** The result of [discoverModules]: the modules, or one of its two
    errors, the failed command (with its error and output) and the failed
    read. *)
Inductive discovery :=
| Discovered (modules : list string)
| CommandFailed (err : execError) (out : string)
| ReadFailed.

(** [discoverModules], given what the listing command returned. *)
Definition discoverModules (listing : ProbeResult) : discovery :=
  match probeErr listing with
  | Some err => CommandFailed err (probeOut listing)
  | None =>
      let '(lines, tooLong) := scanLines (probeOut listing) in
      if tooLong then ReadFailed else Discovered (moduleNames lines)
  end.

(** ** The registry and the pollers ([main]) *)

(** The state the goroutines share: the backing arrays, the checkers
    allocated by [NewStatusChecker] (a checker's address is its index;
    none is ever freed), and the map [checkers] of [main] from names to
    addresses. *)
Record World := mkWorld {
  arrays : Heap;
  structs : list StatusChecker;
  checkers : gmap string nat
}.

Definition emptyWorld : World := mkWorld [] [] ∅.

(** The registry with its pointers followed: the checker each name
    stands for. *)
Definition registryOf (w : World) : gmap string StatusChecker :=
  omap (fun a => structs w !! a) (checkers w).

(** One round of the loop of [main] over the discovered modules: the
    checker is created, its poller is started and it is entered in the
    map under its name; a panic of either call ends the program
    ([None]). The poller is the source of the [Poll] events at the
    checker's address. *)
Definition registerModule (cfg : Config) (module : string) (w : World) : option World :=
  '(h, checker) ← NewStatusChecker (pollingInterval cfg) (arrays w) module;
  _ ← StartPolling (pollingInterval cfg);
  Some {| arrays := h;
          structs := structs w ++ [checker];
          checkers := <[module := length (structs w)]> (checkers w) |}.

(** [performCheck] on the checker at an address, through the pointer the
    poller holds. There is no poller for an address not allocated. *)
Definition pollAt (growSlack : nat -> nat) (a : nat) (now : Time) (p : ProbeResult)
    (w : World) : option World :=
  sc ← structs w !! a;
  '(h, sc) ← performCheck growSlack now p (arrays w, sc);
  Some {| arrays := h; structs := <[a := sc]> (structs w); checkers := checkers w |}.

(** What a request to [/status/] leaves behind: the heap of the handler
    ([None] when the handler panics). *)
Definition queryAt (urlPath : string) (w : World) : option World :=
  '(h, _) ← statusHandler (registryOf w) (arrays w) newResponse urlPath;
  Some {| arrays := h; structs := structs w; checkers := checkers w |}.

(** The steps of the server, in the order the locks and the scheduler
    give them: a round of the loop of [main], a round of a poller, a
    request. *)
Inductive event :=
| Register (module : string)
| Poll (a : nat) (now : Time) (p : ProbeResult)
| Query (urlPath : string).

Definition step (cfg : Config) (growSlack : nat -> nat) (ev : event) (w : World)
  : option World :=
  match ev with
  | Register module => registerModule cfg module w
  | Poll a now p => pollAt growSlack a now p w
  | Query urlPath => queryAt urlPath w
  end.

Fixpoint run (cfg : Config) (growSlack : nat -> nat) (evs : list event) (w : World)
  : option World :=
  match evs with
  | [] => Some w
  | ev :: evs => w ← step cfg growSlack ev w; run cfg growSlack evs w
  end.

(** [main] up to the start of the server: a failed discovery is fatal;
    else every module is registered, in order, and a panic of that loop
    ends the program. *)
Inductive startupResult :=
| Fatal (d : discovery)
| Panicked
| Serving (discoveredModules : list string) (w : World).

Definition startup (cfg : Config) (growSlack : nat -> nat) (listing : ProbeResult)
  : startupResult :=
  match discoverModules listing with
  | Discovered modules =>
      match run cfg growSlack (Register <$> modules) emptyWorld with
      | Some w => Serving modules w
      | None => Panicked
      end
  | d => Fatal d
  end.

(** ** The handler of the root *)

(** The object the handler encodes, field by field. The interval stands
    for the number [pollingInterval.Seconds()] that is encoded; the
    directories are a nil slice when the list is empty. *)
Record Listing := mkListing {
  listingPath : string;
  listingSuccess : bool;
  listingMessage : string;
  monitoredModules : gmap string string;
  pollingIntervalS : Z;
  rsyncDirectories : list string
}.

(** What the handler has written: the error object, or the writer as the
    encoder leaves its header and status, with the object encoded. *)
Inductive rootReply :=
| RootError (w : ResponseWriter)
| RootListing (w : ResponseWriter) (doc : Listing).

(** The map [endpoints]: an assignment for every discovered module. *)
Definition endpointsOf (discoveredModules : list string) : gmap string string :=
  foldl (fun endpoints module => <[module := ("/status/" ++ module)%string]> endpoints)
        ∅ discoveredModules.

(** The handler of [/] in [main]; [listing] is what the command it runs
    for the directories returns. *)
Definition rootHandler (cfg : Config) (discoveredModules : list string)
    (w : ResponseWriter) (urlPath : string) (listing : ProbeResult) : rootReply :=
  if negb (String.eqb urlPath "/") then
    RootError (writeJSONError w StatusNotFound
                 "Endpoint not found. See / for available modules." urlPath)
  else
    let w := HeaderSet "Content-Type" "application/json" w in
    let endpoints := endpointsOf discoveredModules in
    let rsyncDirs :=
      match probeErr listing with
      | None => moduleNames (scanLines (probeOut listing)).1
      | Some _ => []
      end in
    RootListing (WriteHeader StatusOK w)
      {| listingPath := "/";
         listingSuccess := true;
         listingMessage := "Monitoring all discovered modules. See endpoints below.";
         monitoredModules := endpoints;
         pollingIntervalS := pollingInterval cfg;
         rsyncDirectories := rsyncDirs |}.

(** ** What the specification says, in its own words *)

(** The characters the specification allows in a module name: ASCII
    letters, digits, hyphen, underscore and dot. *)
Definition allowedChar (c : ascii) : Prop :=
  let n := nat_of_ascii c in
  (65 <= n <= 90)%nat \/ (97 <= n <= 122)%nat \/ (48 <= n <= 57)%nat \/
  c = "-"%char \/ c = "_"%char \/ c = "."%char.

(** [sub] occurs in [s]. *)
Definition occursIn (sub s : string) : Prop :=
  exists pre post : string, s = (pre ++ sub ++ post)%string.

(** [strings.Join(pieces, sep)] for a separator of one byte. *)
Fixpoint Join (pieces : list string) (sep : ascii) : string :=
  match pieces with
  | [] => ""
  | [piece] => piece
  | piece :: pieces => (piece ++ String sep (Join pieces sep))%string
  end.

(** The first line that is not empty once trimmed, as the specification
    describes the error text: found with the library's search. *)
Definition firstNonBlank (lines : list string) : option string :=
  (fun il => TrimSpace il.2) <$> list_find (fun l => TrimSpace l <> ""%string) lines.

(** The stored history after appending [xs] to a store of capacity
    [capacity], as the specification describes it: the last [capacity]
    outcomes appended, in the order of their appends. *)
Definition lastN {A} (capacity : nat) (xs : list A) : list A :=
  drop (length xs - capacity) xs.

(** The history store, on plain sequences: an append, then the eviction of
    the oldest outcome when the sequence has outgrown the capacity. The
    slice code is shown to refine it. *)
Definition storeAppend {A} (capacity : Z) (stored : list A) (x : A) : list A :=
  let stored := stored ++ [x] in
  if Z.of_nat (length stored) >? capacity then drop 1 stored else stored.

(** What the rounds [ticks] append to the store, in order. *)
Definition outcomes (ticks : list (Time * ProbeResult)) : list CheckResult :=
  (fun tick => classify tick.1 tick.2) <$> ticks.

(** The error object of the specification, [{path, success: false,
    error: message, code: status}], sent with the status [code]. *)
Definition isErrorResponse (w : ResponseWriter) (code : Z) (message path : string) : Prop :=
  statusCode w = code /\
  exists fields : gmap string jvalue,
    body w = [JObj fields] /\
    fields !! "code"%string = Some (JInt code) /\
    fields !! "error"%string = Some (JStr message) /\
    fields !! "success"%string = Some (JBool false) /\
    fields !! "path"%string = Some (JStr path).

(** ** Sample inputs *)

(** Three probe results, as the test helper of the repository produces
    them: a success without output, an unknown module (exit status 5) and
    a failed chroot (exit status 12). *)
Definition probeUp : ProbeResult := mkProbe "" None.
Definition probeUnknown : ProbeResult :=
  mkProbe ("@ERROR: Unknown module 'nonexistent'" ++ String LF "")
          (Some (ExitError (Some (exitedWith 5)))).
Definition probeChroot : ProbeResult :=
  mkProbe ("@ERROR: chroot failed" ++ String LF "")
          (Some (ExitError (Some (exitedWith 12)))).

Definition sampleTicks : list (Time * ProbeResult) :=
  [(1, probeUp); (2, probeUnknown); (3, probeChroot)].

(** A heap with one full array of two results, and a checker on it. *)
Definition sampleHeap : Heap := [[classify 1 probeUp; classify 2 probeUnknown]].
Definition sampleChecker : StatusChecker :=
  mkStatusChecker "debian" "/debian/" (mkSlice 0 0 2 2) 2.

(** ** Notions used to state what the rest of the server does *)

(** A decimal digit. *)
Definition isDigit (c : ascii) : Prop := (48 <= nat_of_ascii c <= 57)%nat.

(** The bytes of a string. *)
Definition bytesOf (s : string) : list ascii := list_ascii_of_string s.

(** The environment variable of the polling interval. *)
Definition intervalKey : string := "POLLING_INTERVAL_SECONDS".

(** A string without any of the six ASCII white-space bytes in it. *)
Definition plainBytes (s : string) : Prop :=
  Forall (fun c => asciiSpace c = false) (bytesOf s).

(** A line that is not blank: something is left of it once trimmed. *)
Definition notBlank (line : string) : Prop := TrimSpace line <> ""%string.

(** The bytes of a string before its first white space. *)
Definition leadingField (s : string) : string := (fieldsFrom s).1.

(** A growth policy of [append] under which a history of up to [bound]
    results can always move to a new array: the array asked for fits in
    memory. *)
Definition growthFits (growSlack : nat -> nat) (bound : nat) : Prop :=
  forall c, (c <= bound)%nat ->
            Z.of_nat (S c + growSlack c) * sizeofCheckResult <= maxAlloc.

(** A schedule the server can follow: a poller runs only once its
    checker exists. [allocated] counts the checkers created before. *)
Fixpoint validSchedule (allocated : nat) (evs : list event) : bool :=
  match evs with
  | [] => true
  | Register _ :: evs => validSchedule (S allocated) evs
  | Poll a _ _ :: evs => (a <? allocated)%nat && validSchedule allocated evs
  | Query _ :: evs => validSchedule allocated evs
  end.

(** The outcomes of the rounds of the poller at address [a], in order. *)
Definition outcomesAt (a : nat) (evs : list event) : list CheckResult :=
  omap (fun ev => match ev with
                  | Poll b now p => if decide (b = a) then Some (classify now p) else None
                  | _ => None
                  end) evs.

(** The names registered, in order: the checker at address [a] is the one
    of the name at index [a]. *)
Definition registeredNames (evs : list event) : list string :=
  omap (fun ev => match ev with Register module => Some module | _ => None end) evs.

(** The capacity every checker gets under a configuration. *)
Definition capacityOf (cfg : Config) : Z :=
  Z.max 1 (Z.quot (24 * Hour) (pollingInterval cfg)).

(** What a checker is, by its address: named after the registered name at
    that address, with a history that reads as the last outcomes of its
    own poller. *)
Definition checkerTracks (cfg : Config) (w : World) (hist : nat -> list CheckResult)
    (names : list string) (a : nat) (sc : StatusChecker) : Prop :=
  wf (arrays w) (results sc) /\
  view (arrays w) (results sc) = lastN (Z.to_nat (capacityOf cfg)) (hist a) /\
  maxResults sc = capacityOf cfg /\
  names !! a = Some (moduleName sc) /\
  path sc = ("/" ++ moduleName sc ++ "/")%string.

(** The invariant of the shared state: every checker is tracked, no two
    checkers share a backing array, and the map holds, for every name
    registered, the address of the last checker created under it. *)
Definition tracks (cfg : Config) (w : World) (hist : nat -> list CheckResult)
    (names : list string) : Prop :=
  length (structs w) = length names /\
  (forall a sc, structs w !! a = Some sc -> checkerTracks cfg w hist names a sc) /\
  (forall a b sca scb, a <> b -> structs w !! a = Some sca -> structs w !! b = Some scb ->
                       arr (results sca) <> arr (results scb)) /\
  (forall name a, checkers w !! name = Some a ->
                  names !! a = Some name /\
                  forall b, (a < b)%nat -> names !! b <> Some name) /\
  (forall name, name ∈ names -> is_Some (checkers w !! name)).

(** The response [ServeHTTP] writes for a history that reads as [stored],
    on a writer [rw]. *)
Definition historyResponse (scPath : string) (stored : list CheckResult)
    (rw : ResponseWriter) : ResponseWriter :=
  let rw := HeaderSet "Content-Type" "application/json" rw in
  Encode (respOf scPath stored)
         (match last stored with
          | Some latest => WriteHeader (HTTPStatus latest) rw
          | None => rw
          end).

(** The response to a request in a state of the server, when the handler
    returns. *)
Definition responseTo (w : World) (urlPath : string) : option ResponseWriter :=
  snd <$> statusHandler (registryOf w) (arrays w) newResponse urlPath.

(** A schedule of two modules: their registrations, rounds of both
    pollers and a request, interleaved. *)
Definition sampleSchedule : list event :=
  [Register "debian"; Poll 0 1 probeUp; Register "ubuntu"; Poll 1 2 probeUnknown;
   Query "/status/debian"; Poll 0 3 probeChroot].

(** The backing array of a checker's history has at most [bound] cells,
    and the history ends where the capacity of its slice ends. *)
Definition boundedHistory (bound : nat) (h : Heap) (sc : StatusChecker) : Prop :=
  exists a, h !! arr (results sc) = Some a /\
            (off (results sc) + cap (results sc))%nat = length a /\
            (len (results sc) <= cap (results sc))%nat /\
            Z.of_nat (len (results sc)) <= maxResults sc /\
            (length a <= bound)%nat.

(** The listing of the test helper, and one with a module whose name has
    a character outside the class of the validation. *)
Definition sampleListing : ProbeResult :=
  mkProbe ("debian          Debian Archive" ++ String LF
           ("ubuntu          Ubuntu Archive" ++ String LF "")) None.
Definition plusListing : ProbeResult :=
  mkProbe ("debian          Debian Archive" ++ String LF
           ("lost+found      Recovered files" ++ String LF "")) None.

(** A line too long for the scanner. *)
Definition tooLongLine (piece : string) : Prop :=
  MaxScanTokenSize <= Z.of_nat (String.length piece).

(** * Facts *)

(** ** Strings *)

Section StringFacts.

Lemma HasPrefix_spec (s p : string) :
  HasPrefix s p = true <-> exists t : string, s = (p ++ t)%string.
Proof.
  revert s; induction p as [|c p IH]; intros s; simpl.
  - split; [intros _; by exists s | done].
  - destruct s as [|d s]; simpl.
    + split; [done | intros [t Ht]; discriminate].
    + destruct (Ascii.eqb d c) eqn:E.
      * apply Ascii.eqb_eq in E as ->. rewrite IH.
        split; intros [t Ht]; exists t; simpl in *; congruence.
      * apply Ascii.eqb_neq in E.
        split; [done | intros [t Ht]; congruence].
Qed.

Lemma Contains_spec (s sub : string) :
  Contains s sub = true <-> occursIn sub s.
Proof.
  unfold occursIn. induction s as [|c s IH]; simpl.
  - rewrite orb_false_r, HasPrefix_spec. split.
    + intros [t Ht]. by exists ""%string, t.
    + intros [[|d pre] [post H]]; [by exists post | discriminate].
  - rewrite orb_true_iff, HasPrefix_spec, IH. split.
    + intros [[t Ht] | (pre & post & H)].
      * by exists ""%string, t.
      * exists (String c pre), post. simpl. by rewrite H.
    + intros [[|d pre] [post H]].
      * left. by exists post.
      * right. exists pre, post. simpl in H. congruence.
Qed.

Lemma Split_nonempty (s : string) (sep : ascii) : Split s sep <> [].
Proof.
  destruct s as [|c s]; simpl; [done |].
  destruct (Ascii.eqb c sep); [done |]. by destruct (Split s sep).
Qed.

(** Joining the pieces with the separator gives the string back. *)
Lemma Join_Split (s : string) (sep : ascii) : Join (Split s sep) sep = s.
Proof.
  induction s as [|c s IH]; simpl; [done |].
  destruct (Ascii.eqb c sep) eqn:E.
  - apply Ascii.eqb_eq in E as ->.
    pose proof (Split_nonempty s sep) as Hne.
    destruct (Split s sep) as [|piece pieces] eqn:Es; [done |].
    simpl in *. by rewrite IH.
  - pose proof (Split_nonempty s sep) as Hne.
    destruct (Split s sep) as [|piece pieces] eqn:Es; [done |].
    destruct pieces; simpl in *; by rewrite <- IH.
Qed.

(** No piece holds the separator. *)
Lemma Split_no_sep (s : string) (sep : ascii) :
  Forall (fun piece => ~ In sep (list_ascii_of_string piece)) (Split s sep).
Proof.
  induction s as [|c s IH]; simpl.
  - constructor; [intros [] | constructor].
  - destruct (Ascii.eqb c sep) eqn:E.
    + constructor; [intros [] | done].
    + apply Ascii.eqb_neq in E.
      destruct (Split s sep) as [|piece pieces].
      * constructor; [|constructor]. simpl. intros [->|[]]. done.
      * inversion IH; subst. constructor; [|done].
        simpl. intros [->|?]; done.
Qed.

Lemma isEmpty_true (s : string) : isEmpty s = true <-> s = ""%string.
Proof. destruct s; simpl; split; congruence. Qed.

Lemma isEmpty_false (s : string) : isEmpty s = false <-> s <> ""%string.
Proof. destruct s; simpl; split; congruence. Qed.

End StringFacts.

(** The functions on the inputs the probe produces: a listing line with a
    carriage return, blank lines before the error, a no-break space. *)
Example TrimSpace_ascii :
  TrimSpace (String (ascii_of_nat 9) " @ERROR: chroot failed " ++ String (ascii_of_nat 13) (String LF ""))
  = "@ERROR: chroot failed"%string.
Proof. reflexivity. Qed.

Example TrimSpace_nbsp :
  TrimSpace (String (ascii_of_nat 194) (String (ascii_of_nat 160) "debian")
             ++ String (ascii_of_nat 226) (String (ascii_of_nat 128) (String (ascii_of_nat 168) "")))
  = "debian"%string.
Proof. reflexivity. Qed.

Example TrimSpace_keeps_inner : TrimSpace "  Debian  Archive " = "Debian  Archive"%string.
Proof. reflexivity. Qed.

Example Split_lines :
  Split ("a" ++ String LF (String LF "b") ++ String LF "") LF
  = ["a"; ""; "b"; ""]%string.
Proof. reflexivity. Qed.

Example TrimPrefix_status : TrimPrefix "/status/debian" "/status/" = "debian"%string.
Proof. reflexivity. Qed.

(** ** Validation *)

Lemma moduleClass_spec (c : ascii) : moduleClass c = true <-> allowedChar c.
Proof.
  unfold moduleClass, allowedChar, inRange.
  rewrite !orb_true_iff, !andb_true_iff, !Nat.leb_le, !Ascii.eqb_eq.
  change (nat_of_ascii "a") with 97%nat. change (nat_of_ascii "z") with 122%nat.
  change (nat_of_ascii "A") with 65%nat. change (nat_of_ascii "Z") with 90%nat.
  change (nat_of_ascii "0") with 48%nat. change (nat_of_ascii "9") with 57%nat.
  tauto.
Qed.

Lemma classToEnd_spec (s : string) :
  classToEnd s = true <-> Forall allowedChar (list_ascii_of_string s).
Proof.
  induction s as [|c s IH]; simpl.
  - split; [constructor | done].
  - rewrite andb_true_iff, Forall_cons, moduleClass_spec, IH. tauto.
Qed.

(** A byte outside the class anywhere in the name makes the match fail. *)
Lemma classToEnd_outside (pre post : string) (c : ascii) :
  moduleClass c = false -> classToEnd (pre ++ String c post) = false.
Proof.
  intros Hc. induction pre as [|d pre IH]; simpl.
  - by rewrite Hc.
  - rewrite IH. apply andb_false_r.
Qed.

Lemma isValidModulePath_outside (pre post : string) (c : ascii) :
  moduleClass c = false -> isValidModulePath (pre ++ String c post) = false.
Proof.
  intros Hc. destruct pre as [|d pre]; simpl.
  - by rewrite Hc.
  - rewrite classToEnd_outside by done. apply andb_false_r.
Qed.

(** C2 (as amended): the validation accepts exactly the non-empty strings
    made of ASCII letters, digits, hyphen, underscore and dot only; in
    particular it rejects the empty string, every string with a slash in
    it and every string with a space in it. *)
Theorem isValidModulePath_allow_list (s : string) :
  (isValidModulePath s = true <->
     s <> ""%string /\ Forall allowedChar (list_ascii_of_string s)) /\
  isValidModulePath "" = false /\
  (occursIn "/" s -> isValidModulePath s = false) /\
  (occursIn " " s -> isValidModulePath s = false).
Proof.
  split; [split | split; [reflexivity | split]].
  - destruct s as [|c s]; simpl; [done |].
    rewrite andb_true_iff, moduleClass_spec, classToEnd_spec.
    intros [? ?]. split; [done | by constructor].
  - intros [Hne Hall]. destruct s as [|c s]; [done |]. simpl in *.
    inversion Hall; subst.
    rewrite andb_true_iff, moduleClass_spec, classToEnd_spec. done.
  - intros (pre & post & ->). by apply isValidModulePath_outside.
  - intros (pre & post & ->). by apply isValidModulePath_outside.
Qed.

(** The table of [TestIsValidModulePath]. *)
Example isValidModulePath_test_table :
  isValidModulePath "debian" = true /\
  isValidModulePath "ubuntu-22.04" = true /\
  isValidModulePath "my_module_1" = true /\
  isValidModulePath "invalid/path" = false /\
  isValidModulePath "../etc/passwd" = false /\
  isValidModulePath "bad!char" = false /\
  isValidModulePath "space in name" = false /\
  isValidModulePath "" = false.
Proof. repeat split. Qed.

(** C2, as first stated, fails: a name may hold two dots in a row, since
    the dot is in the class. The name [..] is accepted. *)
Lemma isValidModulePath_accepts_dotdot :
  occursIn ".." ".." /\ isValidModulePath ".." = true.
Proof. split; [by exists ""%string, ""%string | reflexivity]. Qed.

(** The theorem on a name of the test table. *)
Lemma isValidModulePath_allow_list_witness :
  occursIn "/" "invalid/path" /\ isValidModulePath "invalid/path" = false.
Proof.
  assert (H : occursIn "/" "invalid/path") by (by exists "invalid"%string, "path"%string).
  split; [exact H |].
  exact (proj1 (proj2 (proj2 (isValidModulePath_allow_list "invalid/path"))) H).
Defined.

(** ** Classification *)

Lemma exitedWith_ExitStatus (n : Z) :
  0 <= n <= 255 -> ExitStatus (exitedWith n) = n.
Proof.
  intros Hn. unfold ExitStatus, Exited, exitedWith.
  assert (Hl : Z.land n 255 = n).
  { change 255 with (Z.ones 8). rewrite Z.land_ones by lia.
    apply Z.mod_small. change (2 ^ 8) with 256. lia. }
  rewrite Hl.
  assert (Hlow : Z.land (Z.shiftl n 8) 127 = 0).
  { change 127 with (Z.ones 7). rewrite Z.land_ones by lia.
    rewrite Z.shiftl_mul_pow2 by lia. change (2 ^ 8) with (2 * 2 ^ 7).
    rewrite Z.mul_assoc. apply Z.mod_mul. lia. }
  rewrite Hlow. simpl.
  rewrite Z.shiftr_shiftl_l by lia. simpl. exact Hl.
Qed.

(** The loop finds what the search of the specification finds. *)
Lemma firstLineOf_firstNonBlank (lines : list string) :
  firstLineOf lines = default ""%string (firstNonBlank lines).
Proof.
  unfold firstNonBlank. induction lines as [|l lines IH]; simpl; [done |].
  destruct (decide (TrimSpace l <> ""%string)) as [Hne | He].
  - apply isEmpty_false in Hne. simpl. by rewrite Hne.
  - assert (Hl : TrimSpace l = ""%string) by (destruct (TrimSpace l); [done | by destruct He]).
    rewrite Hl. simpl. rewrite IH.
    by destruct (list_find _ lines) as [[i x]|].
Qed.

Lemma firstNonBlank_nonempty (lines : list string) (l : string) :
  firstNonBlank lines = Some l -> l <> ""%string.
Proof.
  unfold firstNonBlank. destruct (list_find _ lines) as [[i x]|] eqn:E; [|done].
  apply list_find_Some in E as (_ & Hx & _). simpl. congruence.
Qed.

Lemma firstLine_spec (outputStr : string) :
  firstLine outputStr =
  default unknownErrorText (firstNonBlank (Split outputStr LF)).
Proof.
  unfold firstLine. rewrite firstLineOf_firstNonBlank.
  destruct (firstNonBlank _) as [l|] eqn:E; simpl; [|done].
  apply firstNonBlank_nonempty in E. apply isEmpty_false in E. by rewrite E.
Qed.

(** C3: when the probe returned an error, the result is classified by the
    sentinel alone: 404 when the output holds it, 500 when it does not. *)
Theorem classify_down_status (now : Time) (outputStr : string) (err : execError) :
  let r := classify now (mkProbe outputStr (Some err)) in
  (occursIn unknownModuleSentinel outputStr /\ HTTPStatus r = 404) \/
  (~ occursIn unknownModuleSentinel outputStr /\ HTTPStatus r = 500).
Proof.
  simpl. destruct (Contains outputStr unknownModuleSentinel) eqn:E.
  - left. split; [by apply Contains_spec | reflexivity].
  - right. split; [|reflexivity].
    rewrite <- Contains_spec. congruence.
Qed.

(** C4: a probe that returned no error gives an up result: the message
    [Operational], status 200, and the error, output and exit code left at
    their zero values; the entry served for it has the message and the
    code 0, and none of the error fields. *)
Theorem classify_up (now : Time) (outputStr scPath : string) :
  classify now (mkProbe outputStr None) =
  {| IsUp := true; Message := "Operational"; Error := ""; HTTPStatus := 200;
     RsyncExitCode := 0; RsyncOutput := ""; Timestamp := now |} /\
  let entry := resultEntry scPath (classify now (mkProbe outputStr None)) in
  entry !! "message"%string = Some (JStr "Operational") /\
  entry !! "code"%string = Some (JInt 0) /\
  entry !! "error"%string = None /\
  entry !! "rsync_output"%string = None /\
  entry !! "rsync_exit_code"%string = None.
Proof.
  split; [reflexivity |]. unfold resultEntry. simpl.
  repeat split; by simplify_map_eq.
Qed.

(** C5 (as amended): for a probe that ended with an exit error, the result
    is down; its error is the first line of the output that is not empty
    once trimmed, trimmed, or the text [Erro desconhecido do rsync] when
    there is none; its output field is the trimmed output; its exit code
    is the exit status of the wait status, which for a process that
    exited with status [n] is [n]. *)
Theorem classify_down_fields (now : Time) (outputStr : string) (status : WaitStatus) :
  let r := classify now (mkProbe outputStr (Some (ExitError (Some status)))) in
  IsUp r = false /\
  Error r = default "Erro desconhecido do rsync"%string
              (firstNonBlank (Split outputStr LF)) /\
  RsyncOutput r = TrimSpace outputStr /\
  RsyncExitCode r = ExitStatus status /\
  (forall n, 1 <= n <= 255 -> status = exitedWith n -> RsyncExitCode r = n).
Proof.
  simpl. repeat split.
  - apply firstLine_spec.
  - intros n Hn ->. apply exitedWith_ExitStatus. lia.
Qed.

(** The theorem on the failed chroot: exit status 12. *)
Lemma classify_down_fields_witness :
  RsyncExitCode
    (classify 0 (mkProbe "@ERROR: chroot failed" (Some (ExitError (Some (exitedWith 12))))))
  = 12.
Proof.
  refine (proj2 (proj2 (proj2 (proj2
    (classify_down_fields 0 "@ERROR: chroot failed" (exitedWith 12))))) 12 _ eq_refl).
  lia.
Defined.

(** C5, as first stated, fails on the placeholder: with no line to show,
    the error is the text of the code, not [unknown probe error]. *)
Lemma classify_placeholder_differs :
  firstNonBlank (Split "" LF) = None /\
  Error (classify 0 (mkProbe "" (Some (ExitError (Some (exitedWith 1))))))
    = "Erro desconhecido do rsync"%string /\
  Error (classify 0 (mkProbe "" (Some (ExitError (Some (exitedWith 1))))))
    <> "unknown probe error"%string.
Proof. split; [by vm_compute | split; [by vm_compute | by vm_compute]]. Qed.

(** C10: the result depends on the clock through its time stamp only: two
    classifications of one probe result agree on every other field. *)
Theorem classify_deterministic (t1 t2 : Time) (p : ProbeResult) :
  let r1 := classify t1 p in
  let r2 := classify t2 p in
  IsUp r1 = IsUp r2 /\ Message r1 = Message r2 /\ Error r1 = Error r2 /\
  HTTPStatus r1 = HTTPStatus r2 /\ RsyncExitCode r1 = RsyncExitCode r2 /\
  RsyncOutput r1 = RsyncOutput r2 /\
  Timestamp r1 = t1 /\ Timestamp r2 = t2.
Proof. unfold classify. destruct (probeErr p); simpl; repeat split. Qed.

(** Every result of the classification carries one of three statuses,
    200 exactly when it is up. *)
Lemma classify_status (now : Time) (p : ProbeResult) :
  let r := classify now p in
  (IsUp r = true /\ HTTPStatus r = 200) \/
  (IsUp r = false /\ (HTTPStatus r = 404 \/ HTTPStatus r = 500)).
Proof.
  unfold classify. destruct (probeErr p); simpl; [right | left; done].
  split; [done |]. destruct (Contains _ _); [by left | by right].
Qed.

(** The two failures of the test helper, classified. *)
Example classify_unknown_module :
  classify 7 probeUnknown =
  {| IsUp := false; Message := ""; Error := "@ERROR: Unknown module 'nonexistent'";
     HTTPStatus := 404; RsyncExitCode := 5;
     RsyncOutput := "@ERROR: Unknown module 'nonexistent'"; Timestamp := 7 |}.
Proof. reflexivity. Qed.

Example classify_chroot_failed :
  classify 8 probeChroot =
  {| IsUp := false; Message := ""; Error := "@ERROR: chroot failed";
     HTTPStatus := 500; RsyncExitCode := 12;
     RsyncOutput := "@ERROR: chroot failed"; Timestamp := 8 |}.
Proof. reflexivity. Qed.

(** ** Capacity *)

Lemma wrap64_small (z : Z) : - 2 ^ 63 <= z < 2 ^ 63 -> wrap64 z = z.
Proof. intros Hz. unfold wrap64. rewrite Z.mod_small; lia. Qed.

Lemma day_quot_bounds (d : Z) : d <> 0 -> - (24 * Hour) <= Z.quot (24 * Hour) d <= 24 * Hour.
Proof.
  intros Hd. assert (Hday : 0 < 24 * Hour) by reflexivity.
  destruct (Z.lt_trichotomy d 0) as [Hneg | [-> | Hpos]]; [| done |].
  - rewrite <- (Z.opp_involutive d), Z.quot_opp_r by lia.
    assert (0 <= Z.quot (24 * Hour) (- d) <= 24 * Hour); [|lia].
    rewrite Z.quot_div_nonneg by lia. split.
    + apply Z.div_pos; lia.
    + apply Z.div_le_upper_bound; nia.
  - rewrite Z.quot_div_nonneg by lia. split.
    + assert (0 <= 24 * Hour / d) by (apply Z.div_pos; lia). lia.
    + apply Z.div_le_upper_bound; nia.
Qed.

(** The capacity fits in memory for every interval of 30 ns or more and
    for every negative one (where it is 1); below 30 ns it does not. *)
Lemma capacity_fits (d : Z) :
  d < 0 \/ 30 <= d ->
  Z.max 1 (Z.quot (24 * Hour) d) * sizeofCheckResult <= maxAlloc.
Proof.
  intros Hd. pose proof (day_quot_bounds d ltac:(lia)) as Hb.
  change (24 * Hour) with 86400000000000 in *.
  unfold sizeofCheckResult, maxAlloc. change (2 ^ 48) with 281474976710656.
  destruct Hd as [Hneg | Hbig].
  - assert (Z.quot 86400000000000 d <= 0); [|lia].
    rewrite <- (Z.opp_involutive d), Z.quot_opp_r by lia.
    assert (0 <= Z.quot 86400000000000 (- d)); [|lia].
    rewrite Z.quot_div_nonneg by lia. apply Z.div_pos; lia.
  - assert (Z.quot 86400000000000 d <= 2880000000000); [|lia].
    rewrite Z.quot_div_nonneg by lia. apply Z.div_le_upper_bound; lia.
Qed.

Lemma capacity_too_large (d : Z) :
  0 < d < 30 ->
  maxAlloc < Z.max 1 (Z.quot (24 * Hour) d) * sizeofCheckResult.
Proof.
  intros Hd. change (24 * Hour) with 86400000000000.
  unfold sizeofCheckResult, maxAlloc. change (2 ^ 48) with 281474976710656.
  assert (2979310344827 <= Z.quot 86400000000000 d); [|lia].
  rewrite Z.quot_div_nonneg by lia. apply Z.div_le_lower_bound; lia.
Qed.

(** The capacity [NewStatusChecker] computes, without the wrap-around. *)
Lemma maxResults_eq (d : Z) :
  d <> 0 ->
  (if wrap64 (Z.quot (24 * Hour) d) <? 1 then 1 else wrap64 (Z.quot (24 * Hour) d))
  = Z.max 1 (Z.quot (24 * Hour) d).
Proof.
  intros Hd. rewrite wrap64_small
    by (pose proof (day_quot_bounds d Hd); change (24 * Hour) with 86400000000000 in *; lia).
  destruct (Z.ltb_spec (Z.quot (24 * Hour) d) 1); lia.
Qed.

(** C8: for a positive polling interval the capacity asked for is
    [max(1, 24h / interval)] by truncating division. Below 30 ns that many
    results do not fit in memory and the creation panics; from 30 ns on
    the checker is created with that capacity, which is at least 1 (and
    exactly 1 once the interval exceeds 24 hours), and its history starts
    empty in an array of that capacity. *)
Theorem NewStatusChecker_capacity (pollingInterval : Z) (h : Heap) (name : string) :
  0 < pollingInterval ->
  (pollingInterval < 30 -> NewStatusChecker pollingInterval h name = None) /\
  (30 <= pollingInterval ->
   exists h' sc,
     NewStatusChecker pollingInterval h name = Some (h', sc) /\
     maxResults sc = Z.max 1 (Z.quot (24 * Hour) pollingInterval) /\
     maxResults sc = Z.max 1 (24 * Hour / pollingInterval) /\
     1 <= maxResults sc /\
     (24 * Hour < pollingInterval -> maxResults sc = 1) /\
     len (results sc) = 0%nat /\
     cap (results sc) = Z.to_nat (maxResults sc)).
Proof.
  intros Hpos. unfold NewStatusChecker, make.
  destruct (Z.eqb_spec pollingInterval 0) as [-> | Hne]; [lia |].
  rewrite maxResults_eq by done. split.
  - intros Hsmall. pose proof (capacity_too_large pollingInterval ltac:(lia)).
    destruct (Z.leb_spec (Z.max 1 (Z.quot (24 * Hour) pollingInterval) * sizeofCheckResult)
                         maxAlloc); [lia |].
    by rewrite andb_false_r.
  - intros Hbig. pose proof (capacity_fits pollingInterval ltac:(lia)).
    destruct (Z.leb_spec (Z.max 1 (Z.quot (24 * Hour) pollingInterval) * sizeofCheckResult)
                         maxAlloc); [| lia].
    destruct (Z.leb_spec 0 (Z.max 1 (Z.quot (24 * Hour) pollingInterval))); [| lia].
    simpl. eexists _, _. split; [reflexivity |]. simpl.
    assert (Hq : Z.quot (24 * Hour) pollingInterval = 24 * Hour / pollingInterval)
      by (apply Z.quot_div_nonneg; [by vm_compute | lia]).
    rewrite <- Hq. repeat split; try lia.
    intros Hlong. rewrite Hq. rewrite Z.div_small; [lia |].
    split; [by vm_compute | lia].
Qed.

(** The default interval of five minutes keeps 288 results. *)
Example NewStatusChecker_default :
  (fun st => maxResults st.2) <$> NewStatusChecker (300 * Second) [] "debian" = Some 288.
Proof. reflexivity. Qed.

(** An interval of 29 ns asks for more results than fit in memory. *)
Example NewStatusChecker_nanoseconds : NewStatusChecker 29 [] "debian" = None.
Proof. reflexivity. Qed.

(** The theorem on an interval of two days: capacity 1. *)
Lemma NewStatusChecker_capacity_witness :
  (48 * Hour < 30 -> NewStatusChecker (48 * Hour) [] "debian" = None) /\
  (30 <= 48 * Hour ->
   exists h' sc,
     NewStatusChecker (48 * Hour) [] "debian" = Some (h', sc) /\
     maxResults sc = Z.max 1 (Z.quot (24 * Hour) (48 * Hour)) /\
     maxResults sc = Z.max 1 (24 * Hour / (48 * Hour)) /\
     1 <= maxResults sc /\
     (24 * Hour < 48 * Hour -> maxResults sc = 1) /\
     len (results sc) = 0%nat /\
     cap (results sc) = Z.to_nat (maxResults sc)).
Proof. apply (NewStatusChecker_capacity (48 * Hour) [] "debian"). reflexivity. Defined.

(** ** Slices *)

Section SliceFacts.
Context {A : Type} (zero : A) (elemSize : Z) (growSlack : nat -> nat).
Implicit Types (h : list (list A)) (s t dst src : slice) (x : A).

Lemma view_length h s : wf h s -> length (view h s) = len s.
Proof.
  intros (a & Ha & Hcap & Hlen). unfold view. rewrite Ha. simpl.
  rewrite length_take, length_drop. lia.
Qed.

(** A slice reads the same in two heaps that agree on its array. *)
Lemma view_same_array h h' t : h' !! arr t = h !! arr t -> view h' t = view h t.
Proof. unfold view. by intros ->. Qed.

Lemma wf_same_array h h' t : h' !! arr t = h !! arr t -> wf h t -> wf h' t.
Proof. unfold wf. by intros ->. Qed.

Lemma wf_arr_lt h t : wf h t -> (arr t < length h)%nat.
Proof. intros (a & Ha & _). by eapply lookup_lt_Some. Qed.

Lemma make_spec h n c :
  0 <= n <= c -> c * elemSize <= maxAlloc ->
  exists h' s,
    make zero elemSize h n c = Some (h', s) /\
    wf h' s /\
    view h' s = replicate (Z.to_nat n) zero /\
    s = mkSlice (length h) 0 (Z.to_nat n) (Z.to_nat c) /\
    h' = h ++ [replicate (Z.to_nat c) zero] /\
    length h' = S (length h) /\
    (forall i, (i < length h)%nat -> h' !! i = h !! i).
Proof.
  intros Hn Hfit. unfold make.
  destruct (Z.leb_spec 0 n); [| lia]. destruct (Z.leb_spec n c); [| lia].
  destruct (Z.leb_spec (c * elemSize) maxAlloc); [| lia]. simpl.
  eexists _, _. split; [reflexivity |]. unfold wf, view. simpl.
  rewrite list_lookup_middle by done. simpl.
  repeat split.
  - exists (replicate (Z.to_nat c) zero). rewrite length_replicate. repeat split; lia.
  - rewrite drop_0, take_replicate. f_equal. lia.
  - rewrite length_app. simpl. lia.
  - intros i Hi. by apply lookup_app_l.
Qed.


Lemma append_spec h s x :
  wf h s ->
  (len s = cap s -> Z.of_nat (S (len s) + growSlack (cap s)) * elemSize <= maxAlloc) ->
  exists h' s',
    append zero elemSize growSlack h s x = Some (h', s') /\
    wf h' s' /\
    view h' s' = view h s ++ [x] /\
    len s' = S (len s) /\
    (length h <= length h')%nat /\
    (arr s' = arr s \/ (length h <= arr s')%nat) /\
    (forall i, (i < length h)%nat -> i <> arr s -> h' !! i = h !! i).
Proof.
  intros Hwf Hfit. pose proof (view_length h s Hwf) as Hvl.
  destruct Hwf as (a & Ha & Hcap & Hlen).
  unfold append. destruct (Nat.ltb_spec (len s) (cap s)) as [Hroom | Hfull].
  - (* in place *)
    eexists _, _. split; [reflexivity |]. simpl. repeat split.
    + exists (<[(off s + len s)%nat := x]> a). simpl.
      rewrite list_lookup_alter_eq, Ha, length_insert. repeat split; [done | lia.. ].
    + unfold view. simpl. rewrite list_lookup_alter_eq, Ha. simpl.
      rewrite drop_insert_ge by lia.
      replace (off s + len s - off s)%nat with (len s) by lia.
      rewrite (take_S_r _ _ x).
      * by rewrite take_insert_ge by lia.
      * apply list_lookup_insert_eq. rewrite length_drop. lia.
    + by rewrite length_alter.
    + by left.
    + intros i _ Hi. by apply list_lookup_alter_ne.
  - (* into a new array *)
    destruct (Z.leb_spec (Z.of_nat (S (len s) + growSlack (cap s)) * elemSize) maxAlloc);
      [| lia].
    eexists _, _. split; [reflexivity |]. simpl. repeat split.
    + eexists. simpl. rewrite list_lookup_middle by done.
      split; [reflexivity |].
      rewrite length_app, Hvl. simpl. rewrite length_replicate. lia.
    + unfold view at 1. simpl. rewrite list_lookup_middle by done. simpl.
      rewrite drop_0, (cons_middle x), app_assoc.
      apply take_app_length'. rewrite length_app, Hvl. simpl. lia.
    + rewrite length_app. lia.
    + right. lia.
    + intros i Hi _. by apply lookup_app_l.
Qed.

(** [append] panics exactly when a full slice would move to an array
    that does not fit in memory. *)
Lemma append_None h s x :
  append zero elemSize growSlack h s x = None
  <-> (cap s <= len s)%nat /\
      maxAlloc < Z.of_nat (S (len s) + growSlack (cap s)) * elemSize.
Proof.
  unfold append. destruct (Nat.ltb_spec (len s) (cap s)).
  - split; [done | lia].
  - destruct (Z.leb_spec (Z.of_nat (S (len s) + growSlack (cap s)) * elemSize) maxAlloc);
      split; (done || lia).
Qed.

Lemma from_spec h s lo :
  (lo <= len s)%nat ->
  exists s', from s lo = Some s' /\
             view h s' = drop lo (view h s) /\
             arr s' = arr s /\ len s' = (len s - lo)%nat /\
             (wf h s -> wf h s').
Proof.
  intros Hlo. unfold from.
  destruct (Nat.leb_spec lo (len s)) as [_ | ?]; [|lia].
  eexists. split; [reflexivity |]. simpl. repeat split.
  - unfold view. simpl.
    replace (len s) with (lo + (len s - lo))%nat at 2 by lia.
    by rewrite <- take_drop_commute, drop_drop.
  - intros (a & Ha & Hcap & Hlen). exists a. simpl. repeat split; [done | lia..].
Qed.

Lemma copy_spec h dst src :
  wf h dst -> wf h src -> arr dst <> arr src -> len dst = len src ->
  wf (copy h dst src) dst /\
  view (copy h dst src) dst = view h src /\
  length (copy h dst src) = length h /\
  (forall i, i <> arr dst -> copy h dst src !! i = h !! i).
Proof.
  intros Hd Hs Hne Hlen. pose proof (view_length h src Hs) as Hvl.
  destruct Hd as (a & Ha & Hcap & Hl).
  unfold copy. rewrite (take_ge (view h src)) by lia.
  repeat split.
  - eexists. rewrite list_lookup_alter_eq, Ha. simpl. split; [reflexivity |].
    rewrite !length_app, length_take, length_drop, Hvl. lia.
  - unfold view at 1. rewrite list_lookup_alter_eq, Ha. simpl.
    rewrite drop_app_length' by (rewrite length_take; lia).
    apply take_app_length'. lia.
  - by rewrite length_alter.
  - intros i Hi. by apply list_lookup_alter_ne.
Qed.

End SliceFacts.

(** ** The history store *)

Section StoreFacts.
Context {A : Type}.
Implicit Types (xs ys stored : list A) (x : A).

Lemma lastN_length capacity xs : (length (lastN capacity xs) <= capacity)%nat.
Proof. unfold lastN. rewrite length_drop. lia. Qed.

Lemma lastN_short capacity xs : (length xs <= capacity)%nat -> lastN capacity xs = xs.
Proof.
  intros Hle. unfold lastN. by replace (length xs - capacity)%nat with 0%nat by lia.
Qed.

(** Only the last [capacity] elements of what is already stored matter
    to what is stored after more appends. *)
Lemma lastN_app_lastN capacity xs ys :
  lastN capacity (lastN capacity xs ++ ys) = lastN capacity (xs ++ ys).
Proof.
  unfold lastN. rewrite !length_app, length_drop.
  destruct (Nat.le_gt_cases (length xs) capacity) as [Hle | Hgt].
  - replace (length xs - capacity)%nat with 0%nat by lia.
    by rewrite Nat.sub_0_r.
  - replace (length xs - (length xs - capacity) + length ys - capacity)%nat
      with (length ys) by lia.
    replace (length xs + length ys - capacity)%nat
      with ((length xs - capacity) + length ys)%nat by lia.
    rewrite <- (drop_drop (xs ++ ys)). f_equal.
    rewrite drop_app_le by lia. done.
Qed.

(** One append to a store within its capacity keeps the last
    [capacity] elements. *)
Lemma storeAppend_lastN (capacity : Z) stored x :
  1 <= capacity -> (length stored <= Z.to_nat capacity)%nat ->
  storeAppend capacity stored x = lastN (Z.to_nat capacity) (stored ++ [x]).
Proof.
  intros Hcap Hlen. unfold storeAppend, lastN. rewrite length_app. simpl.
  destruct (Z.gtb_spec (Z.of_nat (length stored + 1)) capacity) as [Hgt | Hle].
  - f_equal. lia.
  - by replace (length stored + 1 - Z.to_nat capacity)%nat with 0%nat by lia.
Qed.

Lemma fold_storeAppend (capacity : Z) xs stored :
  1 <= capacity -> (length stored <= Z.to_nat capacity)%nat ->
  fold_left (storeAppend capacity) xs stored
  = lastN (Z.to_nat capacity) (stored ++ xs).
Proof.
  intros Hcap. revert stored. induction xs as [|x xs IH]; intros stored Hlen; simpl.
  - rewrite app_nil_r. by rewrite lastN_short.
  - rewrite storeAppend_lastN by done.
    rewrite IH by apply lastN_length.
    rewrite lastN_app_lastN. by rewrite <- app_assoc.
Qed.

Lemma last_lastN capacity xs : (1 <= capacity)%nat -> last (lastN capacity xs) = last xs.
Proof.
  intros Hcap. unfold lastN. rewrite !last_lookup, lookup_drop, length_drop.
  destruct xs as [|x xs]; [done |]. simpl length. f_equal. lia.
Qed.

End StoreFacts.

Section CheckerFacts.
Variable growSlack : nat -> nat.
Implicit Types (h : Heap) (sc : StatusChecker) (ticks : list (Time * ProbeResult)).

(** One round refines an append to the store; it leaves the other
    arrays of the heap alone, and the slice either stays in its array
    or moves to a new one. The round returns when the growth policy lets
    a history of this length move. *)
Lemma performCheck_spec now p h sc (bound : nat) :
  wf h (results sc) ->
  growthFits growSlack bound -> (len (results sc) <= bound)%nat ->
  exists h' sc',
    performCheck growSlack now p (h, sc) = Some (h', sc') /\
    wf h' (results sc') /\
    view h' (results sc')
      = storeAppend (maxResults sc) (view h (results sc)) (classify now p) /\
    maxResults sc' = maxResults sc /\
    (length h <= length h')%nat /\
    (arr (results sc') = arr (results sc) \/ (length h <= arr (results sc'))%nat) /\
    (forall i, (i < length h)%nat -> i <> arr (results sc) -> h' !! i = h !! i).
Proof.
  intros Hwf Hgrow Hbound. unfold performCheck.
  destruct (append_spec zeroCheckResult sizeofCheckResult growSlack h (results sc)
              (classify now p) Hwf)
    as (h' & rs & -> & Hwf' & Hview & Hlen & Hsize & Harr & Hframe).
  { intros Hfull. rewrite <- Hfull. apply Hgrow. lia. }
  pose proof (view_length _ _ Hwf) as Hvl. simpl.
  unfold storeAppend. rewrite length_app, Hvl. simpl length.
  replace (len (results sc) + 1)%nat with (len rs) by lia.
  destruct (Z.of_nat (len rs) >? maxResults sc).
  - destruct (from_spec h' rs 1) as (rs' & -> & Hv' & Ha' & _ & Hwf''); [lia |].
    simpl. eexists _, _. split; [reflexivity |]. simpl.
    repeat split; try done; [by apply Hwf'' | by rewrite Hv', Hview | by rewrite Ha'].
  - eexists _, _. split; [reflexivity |]. simpl. repeat split; done.
Qed.

Lemma runChecks_cons now p ticks (st : Heap * StatusChecker) :
  runChecks growSlack ((now, p) :: ticks) st
  = performCheck growSlack now p st ≫= runChecks growSlack ticks.
Proof. reflexivity. Qed.

(** An append to the store leaves it no longer than the longer of what
    it was and the capacity. *)
Lemma storeAppend_length (capacity : Z) (stored : list CheckResult) (x : CheckResult)
    (bound : nat) :
  (length stored <= bound)%nat -> (Z.to_nat capacity <= bound)%nat ->
  (length (storeAppend capacity stored x) <= bound)%nat.
Proof.
  intros Hs Hc. unfold storeAppend. rewrite length_app. simpl.
  destruct (Z.gtb_spec (Z.of_nat (length stored + 1)) capacity).
  - rewrite length_drop, length_app. simpl. lia.
  - rewrite length_app. simpl. lia.
Qed.

Lemma runChecks_spec ticks h sc (bound : nat) :
  wf h (results sc) ->
  growthFits growSlack bound ->
  (len (results sc) <= bound)%nat -> (Z.to_nat (maxResults sc) <= bound)%nat ->
  exists h' sc',
    runChecks growSlack ticks (h, sc) = Some (h', sc') /\
    wf h' (results sc') /\
    view h' (results sc')
      = fold_left (storeAppend (maxResults sc)) (outcomes ticks) (view h (results sc)) /\
    maxResults sc' = maxResults sc /\
    (length h <= length h')%nat /\
    (arr (results sc') = arr (results sc) \/ (length h <= arr (results sc'))%nat) /\
    (forall i, (i < length h)%nat -> i <> arr (results sc) -> h' !! i = h !! i).
Proof.
  intros Hwf Hgrow. revert h sc Hwf.
  induction ticks as [|[now p] ticks IH]; intros h sc Hwf Hlen Hmax.
  - exists h, sc. simpl. repeat split; try done. by left.
  - destruct (performCheck_spec now p h sc bound Hwf Hgrow Hlen)
      as (h1 & sc1 & Hrun1 & Hwf1 & Hview1 & Hmax1 & Hlen1 & Harr1 & Hframe1).
    assert (Hlen' : (len (results sc1) <= bound)%nat).
    { rewrite <- (view_length _ _ Hwf1), Hview1. apply storeAppend_length; [|done].
      by rewrite (view_length _ _ Hwf). }
    destruct (IH h1 sc1 Hwf1 Hlen')
      as (h2 & sc2 & Hrun2 & Hwf2 & Hview2 & Hmax2 & Hlen2 & Harr2 & Hframe2);
      [by rewrite Hmax1 |].
    exists h2, sc2. rewrite runChecks_cons, Hrun1. simpl. rewrite Hrun2.
    pose proof (wf_arr_lt _ _ Hwf) as Hlt.
    repeat split; try done.
    + rewrite Hview2, Hmax1, Hview1. done.
    + congruence.
    + lia.
    + destruct Harr2 as [-> | ?]; [done | right; lia].
    + intros i Hi Hne. rewrite Hframe2; [by apply Hframe1 | lia |].
      destruct Harr1 as [-> | ?]; [done | lia].
Qed.

(** The snapshot is well formed, reads as the store does, and lives in
    an array of its own, which holds the copied results and nothing
    else; the store is as before. *)
Lemma snapshot_spec h sc :
  wf h (results sc) ->
  Z.of_nat (len (results sc)) * sizeofCheckResult <= maxAlloc ->
  exists h1 resultsCopy,
    snapshot h sc = Some (h1, resultsCopy) /\
    wf h1 resultsCopy /\
    view h1 resultsCopy = view h (results sc) /\
    wf h1 (results sc) /\
    view h1 (results sc) = view h (results sc) /\
    arr resultsCopy = length h /\
    length h1 = S (length h) /\
    h1 !! arr resultsCopy = Some (view h (results sc)) /\
    (forall i, (i < length h)%nat -> h1 !! i = h !! i).
Proof.
  intros Hwf Hfit. unfold snapshot.
  destruct (make_spec zeroCheckResult sizeofCheckResult h
              (Z.of_nat (len (results sc))) (Z.of_nat (len (results sc))))
    as (h1 & cp & -> & Hwfc & _ & Hcp & Hh1 & Hsize & Hframe); [lia | done |].
  rewrite Nat2Z.id in Hcp, Hh1. simpl.
  pose proof (wf_arr_lt _ _ Hwf) as Hlt.
  assert (Harr : arr cp = length h) by (by rewrite Hcp).
  assert (Hlen : len cp = len (results sc)) by (by rewrite Hcp).
  assert (Hwf1 : wf h1 (results sc)) by (eapply wf_same_array; [by apply Hframe | done]).
  assert (Hv1 : view h1 (results sc) = view h (results sc))
    by (apply view_same_array; by apply Hframe).
  destruct (copy_spec h1 cp (results sc)) as (Hwfc' & Hview & Hsize' & Hframe');
    [done | done | lia | done |].
  assert (Hsame : copy h1 cp (results sc) !! arr (results sc) = h !! arr (results sc)).
  { rewrite Hframe' by lia. by apply Hframe. }
  eexists _, _. split; [reflexivity |]. repeat split; try done.
  - by rewrite Hview.
  - by eapply wf_same_array.
  - by apply view_same_array.
  - congruence.
  - unfold copy. rewrite list_lookup_alter_eq, Harr, Hh1, list_lookup_middle by done.
    simpl. rewrite Hlen, Hcp. simpl. rewrite <- Hh1, Hv1.
    pose proof (view_length _ _ Hwf) as Hvl.
    rewrite take_ge by lia. rewrite drop_ge by (rewrite length_replicate; lia).
    by rewrite app_nil_r.
  - intros i Hi. rewrite Hframe' by lia. by apply Hframe.
Qed.

End CheckerFacts.

Section HistoryFacts.
Variables (pollingInterval : Z) (growSlack : nat -> nat).
Implicit Types (h : Heap) (sc : StatusChecker) (ticks : list (Time * ProbeResult)).


(** A new checker: an empty, well-formed history of capacity
    [maxResults], in an array of its own. *)
Lemma NewStatusChecker_spec h name :
  pollingInterval < 0 \/ 30 <= pollingInterval ->
  exists h' sc,
    NewStatusChecker pollingInterval h name = Some (h', sc) /\
    maxResults sc = Z.max 1 (Z.quot (24 * Hour) pollingInterval) /\
    wf h' (results sc) /\
    view h' (results sc) = [] /\
    cap (results sc) = Z.to_nat (maxResults sc) /\
    arr (results sc) = length h /\
    length h' = S (length h) /\
    (forall i, (i < length h)%nat -> h' !! i = h !! i).
Proof.
  intros Hd. unfold NewStatusChecker.
  destruct (Z.eqb_spec pollingInterval 0) as [? | Hne]; [lia |].
  rewrite maxResults_eq by done.
  destruct (make_spec zeroCheckResult sizeofCheckResult h 0
              (Z.max 1 (Z.quot (24 * Hour) pollingInterval)))
    as (h' & rs & -> & Hwf & Hview & Hrs & _ & Hsize & Hframe);
    [lia | by apply capacity_fits |].
  simpl. eexists _, _. split; [reflexivity |]. simpl.
  repeat split; try done; by rewrite Hrs.
Qed.

(** The history of a checker after any rounds: what was appended last,
    up to the capacity, which keeps it short enough to be copied. *)
Lemma checkerAfter_spec h0 name ticks :
  pollingInterval < 0 \/ 30 <= pollingInterval ->
  growthFits growSlack (Z.to_nat (Z.max 1 (Z.quot (24 * Hour) pollingInterval))) ->
  exists h sc,
    checkerAfter pollingInterval growSlack h0 name ticks = Some (h, sc) /\
    maxResults sc = Z.max 1 (Z.quot (24 * Hour) pollingInterval) /\
    wf h (results sc) /\
    view h (results sc) = lastN (Z.to_nat (maxResults sc)) (outcomes ticks) /\
    Z.of_nat (len (results sc)) * sizeofCheckResult <= maxAlloc /\
    (forall i, (i < length h0)%nat -> h !! i = h0 !! i).
Proof.
  intros Hd Hgrow. unfold checkerAfter.
  destruct (NewStatusChecker_spec h0 name Hd)
    as (h1 & sc1 & -> & Hmax & Hwf & Hview & _ & Harr & Hsize & Hframe).
  assert (Hlen1 : len (results sc1) = 0%nat).
  { pose proof (view_length _ _ Hwf) as Hl. by rewrite Hview in Hl. }
  destruct (runChecks_spec growSlack ticks h1 sc1 _ Hwf Hgrow)
    as (h2 & sc2 & Hrun & Hwf2 & Hview2 & Hmax2 & _ & _ & Hframe2);
    [lia | by rewrite Hmax |].
  assert (Hlast : view h2 (results sc2) = lastN (Z.to_nat (maxResults sc2)) (outcomes ticks)).
  { rewrite Hview2, Hview, Hmax2. apply fold_storeAppend; simpl; lia. }
  exists h2, sc2. simpl. repeat split; try done.
  - congruence.
  - pose proof (capacity_fits pollingInterval Hd) as Hfit.
    pose proof (view_length _ _ Hwf2) as Hvl.
    pose proof (lastN_length (Z.to_nat (maxResults sc2)) (outcomes ticks)) as Hle.
    rewrite <- Hlast, Hvl, Hmax2, Hmax in Hle. unfold sizeofCheckResult in *. lia.
  - intros i Hi. rewrite Hframe2 by lia. by apply Hframe.
Qed.

End HistoryFacts.

(** C1: a module's history never holds more than [maxResults] outcomes,
    and it holds the last [maxResults] ones appended, in the order of their
    appends: after [maxResults + k] rounds, all but the first [k]. This
    holds at every interval at which the checker is created, that is,
    every one but zero and those below 30 ns, and for every growth
    policy of [append] that lets a full history move to a new array. *)
Theorem history_bounded_fifo (pollingInterval : Z) (growSlack : nat -> nat)
    (h0 : Heap) (name : string) (ticks : list (Time * ProbeResult)) :
  pollingInterval < 0 \/ 30 <= pollingInterval ->
  growthFits growSlack (Z.to_nat (Z.max 1 (Z.quot (24 * Hour) pollingInterval))) ->
  exists h sc,
    checkerAfter pollingInterval growSlack h0 name ticks = Some (h, sc) /\
    1 <= maxResults sc /\
    (length (view h (results sc)) <= Z.to_nat (maxResults sc))%nat /\
    view h (results sc) = lastN (Z.to_nat (maxResults sc)) (outcomes ticks) /\
    (forall k, length ticks = (Z.to_nat (maxResults sc) + k)%nat ->
               length (view h (results sc)) = Z.to_nat (maxResults sc) /\
               view h (results sc) = drop k (outcomes ticks)).
Proof.
  intros Hd Hgrow.
  destruct (checkerAfter_spec pollingInterval growSlack h0 name ticks Hd Hgrow)
    as (h & sc & Hrun & Hmax & Hwf & Hview & _).
  exists h, sc. repeat split; try done.
  - lia.
  - rewrite Hview. apply lastN_length.
  - rewrite Hview. unfold lastN, outcomes. rewrite length_drop, length_fmap. lia.
  - rewrite Hview. unfold lastN, outcomes. rewrite length_fmap. f_equal. lia.
Qed.

(** C9: the snapshot is a slice on an array of its own, which the
    snapshot allocates (the heap did not have it before) and which is
    not the array of the store; that array holds the stored results as
    they were when copied, and nothing that was in the heap has changed.
    After any later rounds of the checker the store has changed, it is
    still not on the array of the copy, and the copy reads as before.
    The history is one that fits in memory, as does every array [append]
    may ask for. *)
Theorem snapshot_independent (growSlack : nat -> nat) (h : Heap) (sc : StatusChecker)
    (ticks : list (Time * ProbeResult)) :
  wf h (results sc) ->
  Z.of_nat (len (results sc)) * sizeofCheckResult <= maxAlloc ->
  growthFits growSlack (Nat.max (len (results sc)) (Z.to_nat (maxResults sc))) ->
  exists h1 resultsCopy,
    snapshot h sc = Some (h1, resultsCopy) /\
    h !! arr resultsCopy = None /\
    arr resultsCopy <> arr (results sc) /\
    h1 !! arr resultsCopy = Some (view h (results sc)) /\
    view h1 resultsCopy = view h (results sc) /\
    (forall i, (i < length h)%nat -> h1 !! i = h !! i) /\
    exists h2 sc2,
      runChecks growSlack ticks (h1, sc) = Some (h2, sc2) /\
      arr (results sc2) <> arr resultsCopy /\
      h2 !! arr resultsCopy = Some (view h (results sc)) /\
      view h2 resultsCopy = view h (results sc) /\
      view h2 (results sc2)
        = fold_left (storeAppend (maxResults sc)) (outcomes ticks) (view h (results sc)).
Proof.
  intros Hwf Hfit Hgrow.
  destruct (snapshot_spec h sc Hwf Hfit)
    as (h1 & cp & Hsnap & Hwfc & Hviewc & Hwf1 & Hview1 & Harr & Hsize & Hcell & Hframe).
  pose proof (wf_arr_lt _ _ Hwf) as Hlt.
  destruct (runChecks_spec growSlack ticks _ sc _ Hwf1 Hgrow)
    as (h2 & sc2 & Hrun & _ & Hview2 & _ & _ & Harr2 & Hframe2); [lia | lia |].
  assert (Hkept : h2 !! arr cp = h1 !! arr cp).
  { apply Hframe2; [rewrite Hsize, Harr |]; lia. }
  exists h1, cp. split; [done |]. split; [|split; [|split; [|split; [|split]]]]; try done.
  - rewrite Harr. by apply lookup_ge_None_2.
  - lia.
  - exists h2, sc2. split; [done |]. split; [|split; [|split]].
    + destruct Harr2 as [-> | ?]; lia.
    + by rewrite Hkept.
    + rewrite <- Hviewc. by apply view_same_array.
    + by rewrite Hview2, Hview1.
Qed.

(** The theorem on an interval of twelve hours (capacity 2) and three
    rounds: the first outcome is gone, the other two are left in order. *)
Lemma history_bounded_fifo_witness :
  exists h sc,
    checkerAfter (12 * Hour) (fun _ => 1%nat) [] "debian" sampleTicks = Some (h, sc) /\
    view h (results sc) = [classify 2 probeUnknown; classify 3 probeChroot].
Proof.
  assert (Hd : 12 * Hour < 0 \/ 30 <= 12 * Hour) by (right; discriminate).
  assert (Hgrow : growthFits (fun _ => 1%nat)
                    (Z.to_nat (Z.max 1 (Z.quot (24 * Hour) (12 * Hour))))).
  { intros c Hc. change (Z.to_nat (Z.max 1 (Z.quot (24 * Hour) (12 * Hour)))) with 2%nat in Hc.
    unfold sizeofCheckResult, maxAlloc. lia. }
  destruct (history_bounded_fifo (12 * Hour) (fun _ => 1%nat) [] "debian" sampleTicks
              Hd Hgrow)
    as (h & sc & Hrun & _ & _ & Hview & _).
  exists h, sc. split; [exact Hrun |].
  rewrite Hview. vm_compute in Hrun. injection Hrun as _ <-. reflexivity.
Defined.

(** The theorem on a full history of two results: the round after the
    copy moves the store to a new array and evicts the oldest result; the
    copy, in the array the snapshot added to the heap, still reads the
    two results it was made of. *)
Lemma snapshot_independent_witness :
  wf sampleHeap (results sampleChecker) /\
  Z.of_nat (len (results sampleChecker)) * sizeofCheckResult <= maxAlloc /\
  exists h1 resultsCopy,
    snapshot sampleHeap sampleChecker = Some (h1, resultsCopy) /\
    arr resultsCopy = 1%nat /\
    arr (results sampleChecker) = 0%nat /\
    exists h2 sc2,
      runChecks (fun _ => 1%nat) [(3, probeChroot)] (h1, sampleChecker) = Some (h2, sc2) /\
      arr (results sc2) = 2%nat /\
      view h2 resultsCopy = [classify 1 probeUp; classify 2 probeUnknown] /\
      view h2 (results sc2) = [classify 2 probeUnknown; classify 3 probeChroot].
Proof.
  assert (Hwf : wf sampleHeap (results sampleChecker)).
  { eexists. split; [reflexivity |]. simpl. lia. }
  assert (Hfit : Z.of_nat (len (results sampleChecker)) * sizeofCheckResult <= maxAlloc)
    by (vm_compute; discriminate).
  assert (Hgrow : growthFits (fun _ => 1%nat)
                    (Nat.max (len (results sampleChecker))
                             (Z.to_nat (maxResults sampleChecker)))).
  { intros c Hc. change (Nat.max _ _) with 2%nat in Hc.
    unfold sizeofCheckResult, maxAlloc. lia. }
  split; [exact Hwf |]. split; [exact Hfit |].
  destruct (snapshot_independent (fun _ => 1%nat) sampleHeap sampleChecker
              [(3, probeChroot)] Hwf Hfit Hgrow)
    as (h1 & cp & Hsnap & _ & _ & _ & _ & _ & h2 & sc2 & Hrun & _ & _ & Hcopy & Hstore).
  exists h1, cp. split; [exact Hsnap |].
  vm_compute in Hsnap. injection Hsnap as <- <-.
  split; [reflexivity |]. split; [reflexivity |].
  exists h2, sc2. split; [exact Hrun |].
  vm_compute in Hrun. injection Hrun as <- <-.
  split; [reflexivity |]. split; [exact Hcopy | exact Hstore].
Defined.

(** ** The query path *)

Lemma statusCode_Encode (v : jbody) (w : ResponseWriter) :
  statusCode (Encode v w) = statusCode w.
Proof. by destruct w as [hd [code|] b]. Qed.

Lemma writeJSONError_spec (code : Z) (message path : string) :
  isErrorResponse (writeJSONError newResponse code message path) code message path.
Proof.
  split; [reflexivity |]. eexists. split; [reflexivity |].
  repeat split; by simplify_map_eq.
Qed.

(** [ServeHTTP] answers from the history as it stands: the status of the
    latest result when there is one, and the entries of all of them. *)
Lemma ServeHTTP_spec (h : Heap) (sc : StatusChecker) :
  wf h (results sc) ->
  Z.of_nat (len (results sc)) * sizeofCheckResult <= maxAlloc ->
  exists h' w,
    ServeHTTP h sc newResponse = Some (h', w) /\
    statusCode w = from_option HTTPStatus StatusOK (last (view h (results sc))) /\
    body w = [respOf (path sc) (view h (results sc))] /\
    view h' (results sc) = view h (results sc).
Proof.
  intros Hwf Hfit. unfold ServeHTTP.
  destruct (snapshot_spec h sc Hwf Hfit)
    as (h1 & resultsCopy & -> & _ & Hview & _ & Hstore & _).
  simpl. rewrite Hview. eexists _, _. split; [reflexivity |].
  split; [|split; [|done]].
  - rewrite statusCode_Encode. by destruct (last (view h (results sc))).
  - by destruct (last (view h (results sc))).
Qed.

(** A valid name that the registry holds is served by its checker. *)
Lemma statusHandler_registered (checkers : gmap string StatusChecker) (h : Heap)
    (name : string) (sc : StatusChecker) :
  isValidModulePath name = true -> checkers !! name = Some sc ->
  statusHandler checkers h newResponse ("/status/" ++ name) = ServeHTTP h sc newResponse.
Proof.
  intros Hvalid Hsome. unfold statusHandler.
  change (TrimPrefix ("/status/" ++ name) "/status/") with name.
  destruct name as [|c name]; [discriminate |]. simpl isEmpty. cbv iota.
  rewrite Hvalid. simpl negb. cbv iota. by rewrite Hsome.
Qed.

(** C6: a query of a module answers with the status of the most recent
    outcome of its checker, which is 200 for an up outcome and 404 or 500
    for a down one; before the first round, it answers 200 with no
    outcome in the body. The checker is one created at any interval at
    which creation returns, after any rounds, under any growth policy of
    [append] that lets a full history move to a new array. *)
Theorem ServeHTTP_latest_status (pollingInterval : Z) (growSlack : nat -> nat)
    (h0 : Heap) (name : string) (ticks : list (Time * ProbeResult)) :
  pollingInterval < 0 \/ 30 <= pollingInterval ->
  growthFits growSlack (Z.to_nat (Z.max 1 (Z.quot (24 * Hour) pollingInterval))) ->
  exists h sc h' w,
    checkerAfter pollingInterval growSlack h0 name ticks = Some (h, sc) /\
    ServeHTTP h sc newResponse = Some (h', w) /\
    (forall checkers : gmap string StatusChecker,
        isValidModulePath name = true -> checkers !! name = Some sc ->
        statusHandler checkers h newResponse ("/status/" ++ name) = Some (h', w)) /\
    last (view h (results sc)) = last (outcomes ticks) /\
    body w = [respOf (path sc) (view h (results sc))] /\
    body w = [match view h (results sc) with
              | [] => JNull
              | _ :: _ => JArr (resultEntry (path sc) <$> view h (results sc))
              end] /\
    match last (outcomes ticks) with
    | Some latest =>
        statusCode w = HTTPStatus latest /\
        ((IsUp latest = true /\ HTTPStatus latest = 200) \/
         (IsUp latest = false /\ (HTTPStatus latest = 404 \/ HTTPStatus latest = 500)))
    | None =>
        statusCode w = 200 /\ body w = [JNull]
    end.
Proof.
  intros Hd Hgrow.
  destruct (checkerAfter_spec pollingInterval growSlack h0 name ticks Hd Hgrow)
    as (h & sc & Hrun & Hmax & Hwf & Hview & Hfit & _).
  destruct (ServeHTTP_spec h sc Hwf Hfit) as (h' & w & Hserve & Hstatus & Hbody & _).
  assert (Hlast : last (view h (results sc)) = last (outcomes ticks))
    by (rewrite Hview; apply last_lastN; lia).
  exists h, sc, h', w. split; [done |]. split; [done |].
  split.
  { intros checkers Hvalid Hsome.
    by rewrite (statusHandler_registered checkers h name sc). }
  split; [done |]. split; [done |].
  split; [rewrite Hbody; by destruct (view h (results sc)) |].
  rewrite Hstatus, Hbody, Hlast.
  destruct (last (outcomes ticks)) as [latest|] eqn:E; simpl.
  - split; [done |].
    unfold outcomes in E. rewrite fmap_last in E.
    destruct (last ticks) as [[now p]|]; [|done].
    injection E as <-. apply classify_status.
  - split; [done |].
    assert (Hnil : view h (results sc) = []).
    { destruct (view h (results sc)) as [|r rs] eqn:Ev; [done |].
      assert (is_Some (last (r :: rs))) as [? Hs] by (by apply last_is_Some).
      congruence. }
    by rewrite Hnil.
Qed.

(** The theorem on three rounds that end with the failed chroot. *)
Lemma ServeHTTP_latest_status_witness :
  exists h sc h' w,
    checkerAfter (12 * Hour) (fun _ => 1%nat) [] "debian" sampleTicks = Some (h, sc) /\
    ServeHTTP h sc newResponse = Some (h', w) /\
    statusCode w = 500.
Proof.
  assert (Hd : 12 * Hour < 0 \/ 30 <= 12 * Hour) by (right; discriminate).
  assert (Hgrow : growthFits (fun _ => 1%nat)
                    (Z.to_nat (Z.max 1 (Z.quot (24 * Hour) (12 * Hour))))).
  { intros c Hc. change (Z.to_nat (Z.max 1 (Z.quot (24 * Hour) (12 * Hour)))) with 2%nat in Hc.
    unfold sizeofCheckResult, maxAlloc. lia. }
  destruct (ServeHTTP_latest_status (12 * Hour) (fun _ => 1%nat) [] "debian"
              sampleTicks Hd Hgrow) as (h & sc & h' & w & Hrun & Hserve & _ & _ & _ & _ & Hstatus & _).
  exists h, sc, h', w. split; [exact Hrun |]. split; [exact Hserve | exact Hstatus].
Defined.

(** C7: a name that is empty or fails the validation is answered with
    the error object and status 400, whatever the registry and the heap
    hold, and the heap is left as it was; a valid name that the registry
    does not hold is answered with the error object and status 404. *)
Theorem statusHandler_rejects (checkers : gmap string StatusChecker) (h : Heap)
    (urlPath : string) :
  let module := TrimPrefix urlPath "/status/" in
  (module = ""%string \/ isValidModulePath module = false ->
   exists message,
     isErrorResponse (writeJSONError newResponse 400 message urlPath) 400 message urlPath /\
     forall (checkers' : gmap string StatusChecker) (h' : Heap),
       statusHandler checkers' h' newResponse urlPath
       = Some (h', writeJSONError newResponse 400 message urlPath)) /\
  (isValidModulePath module = true -> checkers !! module = None ->
   isErrorResponse (writeJSONError newResponse 404
                      ("Module '" ++ module ++ "' is not monitored.") urlPath)
                   404 ("Module '" ++ module ++ "' is not monitored.") urlPath /\
   statusHandler checkers h newResponse urlPath
   = Some (h, writeJSONError newResponse 404
                ("Module '" ++ module ++ "' is not monitored.") urlPath)).
Proof.
  intros module. split.
  - intros Hbad. unfold statusHandler. fold module.
    destruct (isEmpty module) eqn:Eempty.
    + eexists. split; [apply writeJSONError_spec | reflexivity].
    + assert (Hinvalid : isValidModulePath module = false).
      { destruct Hbad as [-> | ?]; [discriminate | done]. }
      rewrite Hinvalid. simpl.
      eexists. split; [apply writeJSONError_spec | reflexivity].
  - intros Hvalid Hnone. split; [apply writeJSONError_spec |].
    unfold statusHandler. fold module.
    destruct (isEmpty module) eqn:Eempty.
    + apply isEmpty_true in Eempty. rewrite Eempty in Hvalid. discriminate.
    + rewrite Hvalid. simpl. by rewrite Hnone.
Qed.

(** The theorem on the two failing queries of the specification's
    scenarios: a name with a character outside the class, and a valid
    name that is not registered. *)
Lemma statusHandler_rejects_witness :
  (exists message,
     forall (checkers' : gmap string StatusChecker) (h' : Heap),
       statusHandler checkers' h' newResponse "/status/bad!name"
       = Some (h', writeJSONError newResponse 400 message "/status/bad!name")) /\
  (fun st => statusCode st.2)
    <$> statusHandler {["debian" := sampleChecker]} sampleHeap newResponse
          "/status/nonexistent" = Some 404.
Proof.
  pose proof (statusHandler_rejects {["debian" := sampleChecker]} sampleHeap
                "/status/bad!name") as [Hbad _].
  pose proof (statusHandler_rejects {["debian" := sampleChecker]} sampleHeap
                "/status/nonexistent") as [_ Hmissing].
  split.
  - destruct (Hbad (or_intror eq_refl)) as (message & _ & Hall). by exists message.
  - destruct (Hmissing eq_refl eq_refl) as [_ ->]. reflexivity.
Defined.

(** The scenario of the specification: the outcomes up, down with 404 and
    up are appended to the history of [debian]; the query returns the
    three, in order, with the status 200 of the latest. *)
Example query_after_three_rounds :
  (fun st => (view st.1 (results st.2),
              (fun reply => statusCode reply.2) <$> ServeHTTP st.1 st.2 newResponse))
    <$> checkerAfter (300 * Second) (fun c => c) [] "debian"
          [(1, probeUp); (2, probeUnknown); (3, probeUp)]
  = Some ([classify 1 probeUp; classify 2 probeUnknown; classify 3 probeUp], Some 200).
Proof. vm_compute. reflexivity. Qed.

(** The table of [TestValidationHandler], on a registry that holds
    [debian] with one up result. *)
Example statusHandler_test_table :
  let checkers : gmap string StatusChecker :=
    {[ "debian"%string := mkStatusChecker "debian" "/debian/" (mkSlice 0 0 1 2) 2 ]} in
  let code urlPath :=
    (fun reply => statusCode reply.2)
      <$> statusHandler checkers sampleHeap newResponse urlPath in
  code "/status/"%string = Some 400 /\
  code "/status/invalid/path"%string = Some 400 /\
  code "/status/invalid!module"%string = Some 400 /\
  code "/status/nonexistent-valid"%string = Some 404 /\
  code "/status/debian"%string = Some 200.
Proof. vm_compute. repeat split. Qed.

(** * The rest of the server *)

(** ** Configuration *)

Lemma digitOf_Some (c : ascii) (d : Z) :
  digitOf c = Some d -> isDigit c /\ 0 <= d <= 9.
Proof.
  unfold digitOf, isDigit.
  destruct (Nat.leb_spec 48 (nat_of_ascii c)), (Nat.leb_spec (nat_of_ascii c) 57);
    simpl; intros [= <-]; lia.
Qed.

Lemma parseDigits_Some (s : string) (acc n : Z) :
  0 <= acc -> parseDigits acc s = Some n ->
  Forall isDigit (bytesOf s) /\ acc <= n.
Proof.
  revert acc. induction s as [|c s IH]; intros acc Hacc; simpl.
  - intros [= <-]. split; [constructor | lia].
  - destruct (digitOf c) as [d|] eqn:Hd; simpl; [|done].
    apply digitOf_Some in Hd as [Hc Hd]. intros Hn.
    apply IH in Hn as [Hall Hle]; [|lia].
    split; [by constructor | lia].
Qed.

(** What [Atoi] accepts: digits after an optional sign, denoting a
    number that fits 64 bits. *)
Lemma Atoi_Some (s : string) (n : Z) :
  Atoi s = Some n ->
  - 2 ^ 63 <= n < 2 ^ 63 /\
  exists sign digits : string,
    s = (sign ++ digits)%string /\
    (sign = ""%string \/ sign = "+"%string \/ (sign = "-"%string /\ n <= 0)) /\
    digits <> ""%string /\ Forall isDigit (bytesOf digits).
Proof.
  unfold Atoi. destruct s as [|c rest]; [done |].
  set (digits := if Ascii.eqb c "-" || Ascii.eqb c "+" then rest else String c rest).
  destruct (isEmpty digits) eqn:Hempty; [done |].
  apply isEmpty_false in Hempty.
  destruct (parseDigits 0 digits) as [m|] eqn:Hm; simpl; [|done].
  apply parseDigits_Some in Hm as [Hall Hpos]; [|lia].
  set (v := if Ascii.eqb c "-" then - m else m).
  destruct (Z.leb_spec (- 2 ^ 63) v), (Z.ltb_spec v (2 ^ 63)); simpl; try done.
  intros [= <-]. split; [lia |].
  subst digits v. destruct (Ascii.eqb_spec c "-") as [-> | Hminus]; simpl in *.
  - exists "-"%string, rest. repeat split; try done. right. right. split; [done | lia].
  - destruct (Ascii.eqb_spec c "+") as [-> | Hplus]; simpl in *.
    + exists "+"%string, rest. repeat split; try done. right. by left.
    + exists ""%string, (String c rest). repeat split; try done. by left.
Qed.

Lemma init_interval_Some (env : gmap string string) (s : string) (n : Z) :
  env !! intervalKey = Some s -> Atoi s = Some n -> 0 < n ->
  pollingInterval (init env) = wrap64 (n * Second).
Proof.
  intros Hs Hn Hpos. unfold init, Getenv. fold intervalKey. rewrite Hs. simpl.
  destruct s as [|c s]; [done |]. simpl isEmpty. cbv iota. simpl negb. cbv iota.
  rewrite Hn. by destruct (Z.gtb_spec n 0); [|lia].
Qed.

(** X1: a polling interval given in the environment as a number of
    seconds [n] between 1 and 9223372036 is taken as it is, and a
    checker then keeps [max(1, 86400 / n)] results. *)
Theorem init_interval_capacity (env : gmap string string) (s : string) (n : Z)
    (h : Heap) (name : string) :
  env !! intervalKey = Some s -> Atoi s = Some n -> 1 <= n <= 9223372036 ->
  pollingInterval (init env) = n * Second /\
  exists h' sc,
    NewStatusChecker (pollingInterval (init env)) h name = Some (h', sc) /\
    maxResults sc = Z.max 1 (86400 / n).
Proof.
  intros Hs Hn Hrange.
  assert (Hint : pollingInterval (init env) = n * Second).
  { rewrite (init_interval_Some env s n) by (done || lia).
    apply wrap64_small. unfold Second. lia. }
  split; [done |]. rewrite Hint.
  destruct (NewStatusChecker_spec (n * Second) h name) as (h' & sc & Hnew & Hmax & _).
  { unfold Second. lia. }
  exists h', sc. split; [done |]. rewrite Hmax. f_equal.
  rewrite Z.quot_div_nonneg by (unfold Hour, Second; lia).
  change (24 * Hour) with (86400 * Second).
  apply Z.div_mul_cancel_r; unfold Second; lia.
Qed.

(** The theorem on an interval of one minute: 1440 results. *)
Lemma init_interval_capacity_witness :
  pollingInterval (init {[ intervalKey := "60"%string ]}) = 60 * Second /\
  exists h' sc,
    NewStatusChecker (pollingInterval (init {[ intervalKey := "60"%string ]})) [] "debian"
      = Some (h', sc) /\
    maxResults sc = Z.max 1 (86400 / 60).
Proof.
  apply (init_interval_capacity {[ intervalKey := "60"%string ]} "60" 60 [] "debian");
    [reflexivity | reflexivity | lia].
Defined.

(** X2: the test [intervalSec > 0] does not keep the interval positive.
    Above 9223372036 seconds the product with [time.Second] wraps around,
    so the interval is not the one asked for; for the multiples of 2^55 it
    is zero, and [NewStatusChecker] then panics on its division. *)
Theorem init_interval_overflow (env : gmap string string) (s : string) (n : Z) :
  env !! intervalKey = Some s -> Atoi s = Some n -> 9223372036 < n ->
  pollingInterval (init env) <> n * Second /\
  (forall k h name, n = k * 2 ^ 55 ->
     pollingInterval (init env) = 0 /\
     NewStatusChecker (pollingInterval (init env)) h name = None).
Proof.
  intros Hs Hn Hbig.
  rewrite (init_interval_Some env s n) by (done || lia). split.
  - unfold wrap64, Second.
    pose proof (Z.mod_pos_bound (n * 1000000000 + 2 ^ 63) (2 ^ 64) eq_refl). lia.
  - intros k h name ->.
    assert (Hzero : wrap64 (k * 2 ^ 55 * Second) = 0).
    { unfold wrap64, Second.
      replace (k * 2 ^ 55 * 1000000000 + 2 ^ 63)
        with (2 ^ 63 + (k * 1953125) * 2 ^ 64) by lia.
      rewrite Z.mod_add by lia. reflexivity. }
    rewrite Hzero. split; reflexivity.
Qed.

(** The theorem on 2^55 seconds. *)
Lemma init_interval_overflow_witness :
  pollingInterval (init {[ intervalKey := "36028797018963968"%string ]}) = 0 /\
  NewStatusChecker
    (pollingInterval (init {[ intervalKey := "36028797018963968"%string ]})) [] "debian"
  = None.
Proof.
  refine (proj2 (init_interval_overflow {[ intervalKey := "36028797018963968"%string ]}
                   "36028797018963968" 36028797018963968 eq_refl eq_refl _)
                1 [] "debian" eq_refl).
  lia.
Defined.

(** X3: the interval differs from the default of five minutes only when
    the variable holds decimal digits and nothing else, but for a plus
    sign in front, and they denote a positive number. *)
Theorem init_interval_changed (env : gmap string string) :
  pollingInterval (init env) <> 5 * Minute ->
  exists (s digits : string) (n : Z),
    env !! intervalKey = Some s /\ Atoi s = Some n /\ 0 < n /\
    (s = digits \/ s = ("+" ++ digits)%string) /\
    digits <> ""%string /\ Forall isDigit (bytesOf digits) /\
    pollingInterval (init env) = wrap64 (n * Second).
Proof.
  unfold init, Getenv. fold intervalKey. simpl.
  destruct (env !! intervalKey) as [s|] eqn:Hs; simpl; [|done].
  destruct (isEmpty s) eqn:Hempty; simpl; [done |].
  destruct (Atoi s) as [n|] eqn:Hn; [|done].
  destruct (Z.gtb_spec n 0) as [Hpos | ?]; [|done].
  intros _. destruct (Atoi_Some s n Hn) as (_ & sign & digits & -> & Hsign & Hne & Hall).
  exists (sign ++ digits)%string, digits, n. repeat split; try done.
  destruct Hsign as [-> | [-> | [_ ?]]]; [by left | by right | lia].
Qed.

(** The theorem on the value [+60]. *)
Lemma init_interval_changed_witness :
  exists (s digits : string) (n : Z),
    ({[ intervalKey := "+60"%string ]} : gmap string string) !! intervalKey = Some s /\
    Atoi s = Some n /\ 0 < n /\
    (s = digits \/ s = ("+" ++ digits)%string) /\
    digits <> ""%string /\ Forall isDigit (bytesOf digits) /\
    pollingInterval (init {[ intervalKey := "+60"%string ]}) = wrap64 (n * Second).
Proof. apply (init_interval_changed {[ intervalKey := "+60"%string ]}). by vm_compute. Defined.

(** ** More on strings *)

Section MoreStringFacts.

Lemma append_assoc (a b c : string) : ((a ++ b) ++ c = a ++ (b ++ c))%string.
Proof. induction a as [|x a IH]; simpl; [done | by rewrite IH]. Qed.

Lemma append_nil_r (a : string) : (a ++ "")%string = a.
Proof. induction a as [|x a IH]; simpl; [done | by rewrite IH]. Qed.

Lemma bytesOf_append (a b : string) : bytesOf (a ++ b) = bytesOf a ++ bytesOf b.
Proof. unfold bytesOf. induction a as [|x a IH]; simpl; [done | by rewrite IH]. Qed.

Lemma length_append (a b : string) :
  String.length (a ++ b) = (String.length a + String.length b)%nat.
Proof. induction a as [|x a IH]; simpl; [done | by rewrite IH]. Qed.

Lemma rev_app_append (s acc : string) :
  String.rev_app s acc = (String.rev s ++ acc)%string.
Proof.
  unfold String.rev. revert acc. induction s as [|x s IH]; intros acc; simpl; [done |].
  rewrite (IH (String x acc)), (IH (String x "")), append_assoc. done.
Qed.

Lemma rev_append (a b : string) :
  String.rev (a ++ b) = (String.rev b ++ String.rev a)%string.
Proof.
  induction a as [|x a IH]; simpl.
  - by rewrite append_nil_r.
  - unfold String.rev at 1 3. simpl.
    rewrite !rev_app_append, IH, append_assoc. done.
Qed.

Lemma rev_rev (s : string) : String.rev (String.rev s) = s.
Proof.
  induction s as [|x s IH]; [done |].
  unfold String.rev at 2. simpl. rewrite rev_app_append, rev_append, IH. done.
Qed.

(** Induction on the length of a string. *)
Lemma string_length_ind (P : string -> Prop) :
  (forall s, (forall t, (String.length t < String.length s)%nat -> P t) -> P s) ->
  forall s, P s.
Proof.
  intros Hstep s.
  remember (String.length s) as n eqn:Hn. revert s Hn.
  induction n as [n IH] using lt_wf_ind. intros s ->.
  apply Hstep. intros t Ht. by eapply IH.
Qed.

Lemma length_skip (k : nat) (s : string) :
  String.length (skip k s) = (String.length s - k)%nat.
Proof.
  revert s. induction k as [|k IH]; intros [|c s]; simpl; done.
Qed.

End MoreStringFacts.

(** ** Trimming and fields *)

Section FieldFacts.

(** Case analysis on the white space at the head of a string: the
    scanning functions are unfolded and every test is decided. *)
Ltac case_space :=
  repeat (cbn [TrimLeftSpace TrimLeftSpaceRev fieldsFrom spaceWidth skip];
          match goal with
          | H : asciiSpace ?c = _ |- context [asciiSpace ?c] => rewrite H
          | H : space2 ?c ?d = _ |- context [space2 ?c ?d] => rewrite H
          | H : space3 ?c ?d ?e = _ |- context [space3 ?c ?d ?e] => rewrite H
          | |- context [asciiSpace ?c] => destruct (asciiSpace c) eqn:?
          | |- context [space2 ?c ?d] => destruct (space2 c d) eqn:?
          | |- context [space3 ?c ?d ?e] => destruct (space3 c d e) eqn:?
          end).

Lemma TrimLeftSpace_eq (s : string) :
  TrimLeftSpace s =
  match spaceWidth s with
  | O => s
  | k => TrimLeftSpace (skip k s)
  end.
Proof. destruct s as [|c1 [|c2 [|c3 s3]]]; try reflexivity; case_space; reflexivity. Qed.

Lemma fieldsFrom_eq (s : string) :
  fieldsFrom s =
  match s with
  | EmptyString => (EmptyString, [])
  | String c1 s1 =>
      match spaceWidth s with
      | O => (String c1 (fieldsFrom s1).1, (fieldsFrom s1).2)
      | k => (EmptyString, consField (fieldsFrom (skip k s)))
      end
  end.
Proof. destruct s as [|c1 [|c2 [|c3 s3]]]; try reflexivity; case_space; reflexivity. Qed.

Lemma spaceWidth_plain (c : ascii) (s : string) :
  spaceWidth (String c s) = 0%nat -> asciiSpace c = false.
Proof. cbn [spaceWidth]. by destruct (asciiSpace c). Qed.

Lemma spaceWidth_bounds (s : string) :
  spaceWidth s <> 0%nat -> (1 <= spaceWidth s <= String.length s)%nat.
Proof.
  destruct s as [|c1 [|c2 [|c3 s3]]]; cbn [spaceWidth String.length];
    repeat match goal with |- context [if ?b then _ else _] => destruct b end; lia.
Qed.

(** The white space at the head of a string is already at the head of its
    prefixes that are long enough to hold it, so a prefix of a string
    that starts with none starts with none. *)
Lemma spaceWidth_prefix (t suffix : string) :
  spaceWidth (t ++ suffix) = 0%nat -> spaceWidth t = 0%nat.
Proof.
  destruct t as [|c1 [|c2 [|c3 t3]]]; try reflexivity;
    destruct suffix as [|d1 [|d2 suffix]]; simpl String.append;
    cbn [spaceWidth];
    repeat match goal with |- context [if ?b then _ else _] => destruct b end;
    done.
Qed.

Lemma TrimLeftSpace_width (s : string) : spaceWidth (TrimLeftSpace s) = 0%nat.
Proof.
  induction s as [s IH] using string_length_ind.
  rewrite TrimLeftSpace_eq. destruct (spaceWidth s) as [|k] eqn:Hw; [done |].
  apply IH. rewrite length_skip.
  pose proof (spaceWidth_bounds s). lia.
Qed.

Lemma TrimLeftSpaceRev_suffix (s : string) :
  exists pre : string, s = (pre ++ TrimLeftSpaceRev s)%string.
Proof.
  induction s as [s IH] using string_length_ind.
  destruct s as [|c1 s1]; [by exists ""%string |].
  cbn [TrimLeftSpaceRev]. destruct (asciiSpace c1).
  { destruct (IH s1) as [p H]; [simpl; lia |].
    exists (String c1 p). simpl. by rewrite <- H. }
  destruct s1 as [|c2 s2]; [by exists ""%string |].
  destruct (space2 c2 c1).
  { destruct (IH s2) as [p H]; [simpl; lia |].
    exists (String c1 (String c2 p)). simpl. by rewrite <- H. }
  destruct s2 as [|c3 s3]; [by exists ""%string |].
  destruct (space3 c3 c2 c1); [|by exists ""%string].
  destruct (IH s3) as [p H]; [simpl; lia |].
  exists (String c1 (String c2 (String c3 p))). simpl. by rewrite <- H.
Qed.

Lemma TrimRightSpace_prefix (t : string) :
  exists suffix : string, t = (TrimRightSpace t ++ suffix)%string.
Proof.
  unfold TrimRightSpace.
  destruct (TrimLeftSpaceRev_suffix (String.rev t)) as [pre Hpre].
  exists (String.rev pre).
  rewrite <- rev_append, <- Hpre. by rewrite rev_rev.
Qed.

(** A trimmed line does not start with white space. *)
Lemma TrimSpace_width (s : string) : spaceWidth (TrimSpace s) = 0%nat.
Proof.
  unfold TrimSpace.
  destruct (TrimRightSpace_prefix (TrimLeftSpace s)) as [suffix Hs].
  apply (spaceWidth_prefix _ suffix). rewrite <- Hs. apply TrimLeftSpace_width.
Qed.

(** The fields of a string are not empty and hold no white-space byte. *)
Lemma fieldsFrom_plain (s : string) :
  plainBytes (fieldsFrom s).1 /\
  Forall (fun f => f <> ""%string /\ plainBytes f) (fieldsFrom s).2.
Proof.
  induction s as [s IH] using string_length_ind.
  rewrite fieldsFrom_eq. destruct s as [|c1 s1]; [by split; constructor |].
  destruct (spaceWidth (String c1 s1)) as [|k] eqn:Hw.
  - destruct (IH s1) as [Hhead Hrest]; [simpl; lia |]. simpl. split; [|done].
    constructor; [by eapply spaceWidth_plain | done].
  - destruct (IH (skip (S k) (String c1 s1))) as [Hhead Hrest].
    { rewrite length_skip. simpl. lia. }
    split; [constructor |]. unfold consField.
    destruct (isEmpty _) eqn:He; [done |].
    constructor; [|done]. split; [by apply isEmpty_false | done].
Qed.

(** A string splits into its leading field and a rest that is empty or
    starts with white space. *)
Lemma leadingField_split (s : string) :
  exists rest : string,
    s = (leadingField s ++ rest)%string /\
    (rest = ""%string \/ spaceWidth rest <> 0%nat).
Proof.
  unfold leadingField. induction s as [|c1 s1 IH]; [by exists ""%string; split; [|left] |].
  rewrite fieldsFrom_eq.
  destruct (spaceWidth (String c1 s1)) as [|k] eqn:Hw.
  - destruct IH as (rest & Hs1 & Hrest). exists rest. simpl. split; [by rewrite <- Hs1 | done].
  - exists (String c1 s1). split; [done |]. right. by rewrite Hw.
Qed.

(** On a string that is not empty and starts with no white space,
    [Fields] has a first field: the leading one, which is not empty. *)
Lemma Fields_leading (s : string) :
  s <> ""%string -> spaceWidth s = 0%nat ->
  leadingField s <> ""%string /\ Fields s = leadingField s :: (fieldsFrom s).2.
Proof.
  intros Hne Hw. unfold Fields, leadingField, consField.
  rewrite fieldsFrom_eq. destruct s as [|c1 s1]; [done |]. rewrite Hw. simpl. done.
Qed.

(** The loop of [discoverModules] takes one name from every line that is
    not blank. *)
Lemma moduleNames_eq (lines : list string) :
  moduleNames lines
  = (fun line => leadingField (TrimSpace line)) <$> filter notBlank lines.
Proof.
  induction lines as [|line lines IH]; [done |].
  cbn [moduleNames]. rewrite filter_cons. unfold notBlank at 1.
  destruct (decide (TrimSpace line <> ""%string)) as [Hne | Heq].
  - apply isEmpty_false in Hne as He. rewrite He.
    destruct (Fields_leading (TrimSpace line)) as [_ ->];
      [by apply isEmpty_false | apply TrimSpace_width |].
    by rewrite fmap_cons, IH.
  - assert (He : isEmpty (TrimSpace line) = true).
    { destruct (TrimSpace line); [done | by destruct Heq]. }
    by rewrite He.
Qed.

End FieldFacts.

(** ** Discovery *)

(** X4: a discovered module name is never empty and holds no blank, tab
    or line break. *)
Theorem discoverModules_names (listing : ProbeResult) (modules : list string) :
  discoverModules listing = Discovered modules ->
  Forall (fun module => module <> ""%string /\ plainBytes module) modules.
Proof.
  unfold discoverModules. destruct (probeErr listing); [done |].
  destruct (scanLines (probeOut listing)) as [lines tooLong].
  destruct tooLong; [done |]. intros [= <-].
  rewrite moduleNames_eq. apply Forall_fmap, Forall_forall.
  intros line [Hline _]%list_elem_of_filter. simpl. split.
  - by apply Fields_leading; [|apply TrimSpace_width].
  - apply fieldsFrom_plain.
Qed.

(** The theorem on the listing of the test helper. *)
Lemma discoverModules_names_witness :
  Forall (fun module => module <> ""%string /\ plainBytes module) ["debian"; "ubuntu"]%string.
Proof.
  apply (discoverModules_names
           (mkProbe ("debian          Debian Archive" ++ String LF
                     ("ubuntu          Ubuntu Archive" ++ String LF "")) None)).
  reflexivity.
Defined.

(** X5: discovery takes exactly one name from every line that is not
    blank, in order: the bytes of the trimmed line before its first white
    space. The test [len(parts) > 0] never fails. *)
Theorem discoverModules_lines (listing : ProbeResult) (modules : list string) :
  discoverModules listing = Discovered modules ->
  probeErr listing = None /\
  modules = (fun line => leadingField (TrimSpace line))
              <$> filter notBlank (scanLines (probeOut listing)).1 /\
  length modules = length (filter notBlank (scanLines (probeOut listing)).1) /\
  forall line, line ∈ (scanLines (probeOut listing)).1 ->
    exists rest : string,
      TrimSpace line = (leadingField (TrimSpace line) ++ rest)%string /\
      (rest = ""%string \/ spaceWidth rest <> 0%nat).
Proof.
  unfold discoverModules. destruct (probeErr listing); [done |].
  destruct (scanLines (probeOut listing)) as [lines tooLong].
  destruct tooLong; [done |]. intros [= <-]. simpl.
  split; [done |]. split; [apply moduleNames_eq |]. split.
  - by rewrite moduleNames_eq, length_fmap.
  - intros line _. apply leadingField_split.
Qed.

(** The theorem on the listing of the test helper. *)
Lemma discoverModules_lines_witness :
  ["debian"; "ubuntu"]%string
  = (fun line => leadingField (TrimSpace line))
      <$> filter notBlank
            (scanLines ("debian          Debian Archive" ++ String LF
                        ("ubuntu          Ubuntu Archive" ++ String LF ""))).1.
Proof.
  apply (discoverModules_lines
           (mkProbe ("debian          Debian Archive" ++ String LF
                     ("ubuntu          Ubuntu Archive" ++ String LF "")) None)).
  reflexivity.
Defined.

(** ** The shared state *)

Section WorldFacts.
Variables (cfg : Config) (growSlack : nat -> nat).
Implicit Types (w : World) (hist : nat -> list CheckResult) (names : list string).

Lemma NewStatusChecker_fields (interval : Z) (h h' : Heap) (name : string)
    (sc : StatusChecker) :
  NewStatusChecker interval h name = Some (h', sc) ->
  moduleName sc = name /\ path sc = ("/" ++ name ++ "/")%string.
Proof.
  unfold NewStatusChecker. destruct (interval =? 0); [done |].
  destruct (make _ _ _ _ _) as [[h1 rs]|]; [|done]. by intros [= _ <-].
Qed.

(** The poller starts at a positive interval only. *)
Lemma StartPolling_Some (interval : Z) : StartPolling interval = Some tt <-> 0 < interval.
Proof. unfold StartPolling. by destruct (Z.leb_spec interval 0); split; (done || lia). Qed.


Lemma registryOf_lookup (w : World) (name : string) :
  registryOf w !! name = checkers w !! name ≫= (structs w !!.).
Proof. unfold registryOf. apply lookup_omap. Qed.

Lemma registryOf_struct (w : World) (name : string) (sc : StatusChecker) :
  registryOf w !! name = Some sc ->
  exists a, checkers w !! name = Some a /\ structs w !! a = Some sc.
Proof.
  rewrite registryOf_lookup. destruct (checkers w !! name) as [a|]; [|done].
  simpl. by exists a.
Qed.

(** A round changes the history of a checker and nothing else of it. *)
Lemma performCheck_fields (now : Time) (p : ProbeResult) (h h' : Heap)
    (sc sc' : StatusChecker) :
  performCheck growSlack now p (h, sc) = Some (h', sc') ->
  moduleName sc' = moduleName sc /\ path sc' = path sc.
Proof.
  unfold performCheck. destruct (append _ _ _ _ _ _) as [[h1 rs]|]; [|done]. simpl.
  destruct (_ >? _).
  - destruct (from rs 1) as [rs'|]; [|done]. simpl. by intros [= _ <-].
  - by intros [= _ <-].
Qed.

(** [ServeHTTP] on any writer: the response is that of the history as it
    stands, and the heap has one more array, the others being as they
    were. *)
Lemma ServeHTTP_response (h : Heap) (sc : StatusChecker) (rw : ResponseWriter) :
  wf h (results sc) ->
  Z.of_nat (len (results sc)) * sizeofCheckResult <= maxAlloc ->
  exists h',
    ServeHTTP h sc rw = Some (h', historyResponse (path sc) (view h (results sc)) rw) /\
    forall i, (i < length h)%nat -> h' !! i = h !! i.
Proof.
  intros Hwf Hfit. unfold ServeHTTP, historyResponse.
  destruct (snapshot_spec h sc Hwf Hfit)
    as (h1 & resultsCopy & -> & _ & Hview & _ & _ & _ & _ & _ & Hframe).
  simpl. rewrite Hview. by exists h1.
Qed.

(** A history that follows its poller is short enough to be copied,
    when the capacity fits in memory. *)
Lemma checkerTracks_fits w hist names a sc :
  capacityOf cfg * sizeofCheckResult <= maxAlloc ->
  checkerTracks cfg w hist names a sc ->
  Z.of_nat (len (results sc)) * sizeofCheckResult <= maxAlloc.
Proof.
  intros Hfit (Hwf & Hview & _).
  pose proof (view_length _ _ Hwf) as Hvl.
  pose proof (lastN_length (Z.to_nat (capacityOf cfg)) (hist a)) as Hle.
  rewrite <- Hview, Hvl in Hle. unfold sizeofCheckResult in *.
  assert (1 <= capacityOf cfg) by (unfold capacityOf; lia). lia.
Qed.

(** A request returns; it allocates at most, and writes to no array
    that exists. *)
Lemma statusHandler_frame w hist names (rw : ResponseWriter) (urlPath : string) :
  capacityOf cfg * sizeofCheckResult <= maxAlloc ->
  tracks cfg w hist names ->
  exists h' reply,
    statusHandler (registryOf w) (arrays w) rw urlPath = Some (h', reply) /\
    forall i, (i < length (arrays w))%nat -> h' !! i = arrays w !! i.
Proof.
  intros Hfit (_ & Hall & _). unfold statusHandler.
  destruct (isEmpty _); [by eexists _, _ |]. destruct (negb _); [by eexists _, _ |].
  destruct (registryOf w !! _) as [sc|] eqn:Hsc; [|by eexists _, _].
  destruct (registryOf_struct _ _ _ Hsc) as (a & _ & Ha).
  pose proof (Hall a sc Ha) as Htr. pose proof Htr as (Hwf & _).
  destruct (ServeHTTP_response (arrays w) sc rw Hwf (checkerTracks_fits _ _ _ _ _ Hfit Htr))
    as (h' & -> & Hframe).
  by eexists _, _.
Qed.

Lemma tracks_ext w hist hist' names :
  (forall a, hist a = hist' a) -> tracks cfg w hist names -> tracks cfg w hist' names.
Proof.
  intros Hext (Hlen & Hall & Hdist & Hreg & Hdom).
  split; [done |]. split; [|done].
  intros a sc Ha. destruct (Hall a sc Ha) as (? & ? & ? & ? & ?).
  repeat split; try done. by rewrite <- Hext.
Qed.

Lemma checkerTracks_frame w (h' : Heap) hist names a sc :
  (forall i, (i < length (arrays w))%nat -> h' !! i = arrays w !! i) ->
  checkerTracks cfg w hist names a sc ->
  checkerTracks cfg {| arrays := h'; structs := structs w; checkers := checkers w |}
                hist names a sc.
Proof.
  intros Hframe (Hwf & Hview & Hmax & Hname & Hpath).
  pose proof (wf_arr_lt _ _ Hwf) as Hlt.
  repeat split; try done; simpl.
  - eapply wf_same_array; [by apply Hframe | done].
  - rewrite <- Hview. apply view_same_array. by apply Hframe.
Qed.

Lemma tracks_query w hist names (urlPath : string) :
  capacityOf cfg * sizeofCheckResult <= maxAlloc ->
  tracks cfg w hist names ->
  exists w', queryAt urlPath w = Some w' /\
             structs w' = structs w /\ checkers w' = checkers w /\
             (forall i, (i < length (arrays w))%nat -> arrays w' !! i = arrays w !! i) /\
             tracks cfg w' hist names.
Proof.
  intros Hfit Htracks. unfold queryAt.
  destruct (statusHandler_frame w hist names newResponse urlPath Hfit Htracks)
    as (h' & reply & -> & Hframe).
  destruct Htracks as (Hlen & Hall & Hdist & Hreg & Hdom).
  simpl. eexists. split; [reflexivity |]. simpl.
  do 3 (split; [done |]). split; [done |]. split; [|done].
  intros a sc Ha. by apply checkerTracks_frame; [|apply Hall].
Qed.

Lemma tracks_register w hist names (module : string) :
  30 <= pollingInterval cfg -> hist (length names) = [] ->
  tracks cfg w hist names ->
  exists w', registerModule cfg module w = Some w' /\
             tracks cfg w' hist (names ++ [module]).
Proof.
  intros Hd Hfresh (Hlen & Hall & Hdist & Hreg & Hdom). unfold registerModule.
  destruct (NewStatusChecker_spec (pollingInterval cfg) (arrays w) module (or_intror Hd))
    as (h' & sc & Hnew & Hmax & Hwf & Hview & _ & Harr & _ & Hframe).
  destruct (NewStatusChecker_fields _ _ _ _ _ Hnew) as [Hname Hpath].
  rewrite Hnew. simpl.
  rewrite (proj2 (StartPolling_Some (pollingInterval cfg))) by lia. simpl.
  eexists. split; [reflexivity |].
  assert (Hold : forall a sca, structs w !! a = Some sca ->
            (a < length names)%nat /\
            checkerTracks cfg {| arrays := h'; structs := structs w ++ [sc];
                                 checkers := <[module := length (structs w)]> (checkers w) |}
                          hist (names ++ [module]) a sca).
  { intros a sca Ha. pose proof (lookup_lt_Some _ _ _ Ha) as Hlt. split; [lia |].
    destruct (Hall a sca Ha) as (Hwfa & Hviewa & Hmaxa & Hnamea & Hpatha).
    pose proof (wf_arr_lt _ _ Hwfa) as Harra.
    repeat split; try done; simpl.
    - eapply wf_same_array; [by apply Hframe | done].
    - rewrite <- Hviewa. apply view_same_array. by apply Hframe.
    - by apply lookup_app_l_Some. }
  split; [|split; [|split; [|split]]]; simpl.
  - rewrite !length_app. simpl. lia.
  - intros a sca Ha. apply lookup_app_Some in Ha as [Ha | [Hge Ha]]; [by apply Hold |].
    apply list_lookup_singleton_Some in Ha as [Ha <-].
    assert (a = length names) as -> by lia.
    repeat split; try done; simpl.
    + by rewrite Hview, Hfresh.
    + by rewrite list_lookup_middle, Hname.
    + by rewrite Hname.
  - intros a b sca scb Hab Ha Hb.
    apply lookup_app_Some in Ha as [Ha | [Hga Ha]];
      apply lookup_app_Some in Hb as [Hb | [Hgb Hb]].
    + by eapply Hdist.
    + apply list_lookup_singleton_Some in Hb as [_ <-].
      destruct (Hall a sca Ha) as (Hwfa & _). pose proof (wf_arr_lt _ _ Hwfa). lia.
    + apply list_lookup_singleton_Some in Ha as [_ <-].
      destruct (Hall b scb Hb) as (Hwfb & _). pose proof (wf_arr_lt _ _ Hwfb). lia.
    + apply list_lookup_singleton_Some in Ha as [Ha _].
      apply list_lookup_singleton_Some in Hb as [Hb _]. lia.
  - intros name a Hlook. destruct (decide (module = name)) as [<- | Hother].
    + rewrite lookup_insert_eq in Hlook. injection Hlook as <-. rewrite Hlen. split.
      * by apply list_lookup_middle.
      * intros b Hb. rewrite lookup_ge_None_2; [done |]. rewrite length_app. simpl. lia.
    + rewrite lookup_insert_ne in Hlook by done.
      destruct (Hreg name a Hlook) as [Hat Hlast].
      pose proof (lookup_lt_Some _ _ _ Hat) as Hlt. split.
      * by apply lookup_app_l_Some.
      * intros b Hb Hbad. apply lookup_app_Some in Hbad as [Hbad | [_ Hbad]].
        -- by eapply Hlast.
        -- apply list_lookup_singleton_Some in Hbad as [_ ?]. done.
  - intros name [Hin | ->%list_elem_of_singleton]%elem_of_app.
    + destruct (decide (module = name)) as [<- | Hother].
      * rewrite lookup_insert_eq. by eexists.
      * rewrite lookup_insert_ne by done. by apply Hdom.
    + rewrite lookup_insert_eq. by eexists.
Qed.

End WorldFacts.

Section ScheduleFacts.
Variables (cfg : Config) (growSlack : nat -> nat).
Implicit Types (w : World) (hist : nat -> list CheckResult) (names : list string).

#[local] Arguments performCheck : simpl never.

Lemma capacityOf_pos : 1 <= capacityOf cfg.
Proof. unfold capacityOf. lia. Qed.

Lemma tracks_poll w hist names (a : nat) (now : Time) (p : ProbeResult) :
  growthFits growSlack (Z.to_nat (capacityOf cfg)) ->
  (a < length names)%nat -> tracks cfg w hist names ->
  exists w', pollAt growSlack a now p w = Some w' /\
             tracks cfg w'
               (fun b => if decide (a = b) then hist b ++ [classify now p] else hist b)
               names.
Proof.
  intros Hfits Ha (Hlen & Hall & Hdist & Hreg & Hdom). unfold pollAt.
  destruct (lookup_lt_is_Some_2 (structs w) a) as [sc Hsc]; [lia |].
  destruct (Hall a sc Hsc) as (Hwf & Hview & Hmax & Hname & Hpath).
  assert (Hshort : (len (results sc) <= Z.to_nat (capacityOf cfg))%nat).
  { rewrite <- (view_length _ _ Hwf), Hview. apply lastN_length. }
  destruct (performCheck_spec growSlack now p (arrays w) sc _ Hwf Hfits Hshort)
    as (h' & sc' & Hrun & Hwf' & Hview' & Hmax' & Hgrow & Harr & Hframe).
  destruct (performCheck_fields growSlack _ _ _ _ _ _ Hrun) as [Hname' Hpath'].
  rewrite Hsc. simpl. rewrite Hrun. simpl. eexists. split; [reflexivity |].
  pose proof (wf_arr_lt _ _ Hwf) as Harr_lt.
  pose proof (lookup_lt_Some _ _ _ Hsc) as Ha_lt.
  split; [|split; [|split; [|split]]]; simpl; try done.
  - by rewrite length_insert.
  - intros b scb Hb. destruct (decide (a = b)) as [<- | Hab].
    + rewrite list_lookup_insert_eq in Hb by done. injection Hb as <-.
      repeat split; try done; simpl.
      * rewrite decide_True by done. rewrite Hview', Hview, Hmax.
        rewrite storeAppend_lastN by (apply capacityOf_pos || apply lastN_length).
        apply lastN_app_lastN.
      * congruence.
      * by rewrite Hname'.
      * rewrite Hpath', Hname'. exact Hpath.
    + rewrite list_lookup_insert_ne in Hb by done.
      destruct (Hall b scb Hb) as (Hwfb & Hviewb & Hmaxb & Hnameb & Hpathb).
      pose proof (wf_arr_lt _ _ Hwfb) as Hb_lt.
      assert (Hsame : h' !! arr (results scb) = arrays w !! arr (results scb)).
      { apply Hframe; [done |]. apply (Hdist b a scb sc); [congruence | done | done]. }
      repeat split; try done; simpl.
      * by eapply wf_same_array.
      * rewrite decide_False by done. rewrite <- Hviewb. by apply view_same_array.
  - intros b c scb scc Hbc Hb Hc.
    assert (Hfresh : forall d scd, d <> a -> structs w !! d = Some scd ->
              arr (results scd) <> arr (results sc')).
    { intros d scd Hd Hscd.
      destruct (Hall d scd Hscd) as (Hwfd & _). pose proof (wf_arr_lt _ _ Hwfd).
      destruct Harr as [-> | ?]; [by apply (Hdist d a scd sc) | lia]. }
    destruct (decide (a = b)) as [<- | Hab]; destruct (decide (a = c)) as [<- | Hac];
      try done.
    + rewrite list_lookup_insert_eq in Hb by done. injection Hb as <-.
      rewrite list_lookup_insert_ne in Hc by done.
      intros Heq. apply (Hfresh c scc); [congruence | done | by symmetry].
    + rewrite list_lookup_insert_eq in Hc by done. injection Hc as <-.
      rewrite list_lookup_insert_ne in Hb by done.
      apply (Hfresh b scb); [congruence | done].
    + rewrite list_lookup_insert_ne in Hb, Hc by done. by apply (Hdist b c scb scc).
Qed.

Lemma outcomesAt_poll (a b : nat) (now : Time) (p : ProbeResult) (evs : list event) :
  outcomesAt a (Poll b now p :: evs)
  = if decide (b = a) then classify now p :: outcomesAt a evs else outcomesAt a evs.
Proof. unfold outcomesAt. simpl. by destruct (decide (b = a)). Qed.

(** Every schedule the server can follow runs, and keeps the invariant:
    the history of a checker follows the outcomes of its own poller. *)
Lemma run_tracks (evs : list event) w hist names :
  30 <= pollingInterval cfg ->
  growthFits growSlack (Z.to_nat (capacityOf cfg)) ->
  tracks cfg w hist names ->
  (forall a, (length names <= a)%nat -> hist a = []) ->
  validSchedule (length names) evs = true ->
  exists w', run cfg growSlack evs w = Some w' /\
             tracks cfg w' (fun a => hist a ++ outcomesAt a evs)
                    (names ++ registeredNames evs).
Proof.
  intros Hne Hfits. revert w hist names.
  induction evs as [|ev evs IH]; intros w hist names Htracks Hfresh Hvalid.
  - exists w. split; [done |]. rewrite app_nil_r.
    eapply tracks_ext; [|done]. intros a. by rewrite app_nil_r.
  - destruct ev as [module | a now p | urlPath]; cbn [validSchedule] in Hvalid.
    + destruct (tracks_register cfg w hist names module Hne (Hfresh _ (Nat.le_refl _)) Htracks)
        as (w1 & Hstep & Htracks1).
      destruct (IH w1 hist (names ++ [module]) Htracks1) as (w2 & Hrun & Htracks2).
      { intros a Ha. apply Hfresh. rewrite length_app in Ha. simpl in Ha. lia. }
      { rewrite length_app. simpl. by rewrite Nat.add_1_r. }
      exists w2. split; [cbn [run step]; by rewrite Hstep |].
      rewrite <- app_assoc in Htracks2. exact Htracks2.
    + apply andb_true_iff in Hvalid as [Ha%Nat.ltb_lt Hvalid].
      destruct (tracks_poll w hist names a now p Hfits Ha Htracks)
        as (w1 & Hstep & Htracks1).
      destruct (IH w1 _ names Htracks1) as (w2 & Hrun & Htracks2); [|done |].
      { intros b Hb. destruct (decide (a = b)); [lia | by apply Hfresh]. }
      exists w2. split; [cbn [run step]; by rewrite Hstep |].
      eapply tracks_ext; [|exact Htracks2]. intros b. cbn beta.
      rewrite outcomesAt_poll.
      destruct (decide (a = b)); [by rewrite <- app_assoc | done].
    + destruct (tracks_query cfg w hist names urlPath) as (w1 & Hstep & _ & _ & _ & Htracks1);
        [by apply capacity_fits; right | done |].
      destruct (IH w1 hist names Htracks1) as (w2 & Hrun & Htracks2); [done | done |].
      exists w2. split; [cbn [run step]; by rewrite Hstep | exact Htracks2].
Qed.

Lemma tracks_empty : tracks cfg emptyWorld (fun _ => []) [].
Proof. repeat split; try done; intros *; try done. by intros ?%elem_of_nil. Qed.

End ScheduleFacts.

(** ** Histories and requests under any schedule *)

Section ServerFacts.
Variables (cfg : Config) (growSlack : nat -> nat).

Lemma historyResponse_status (scPath : string) (stored : list CheckResult) :
  statusCode (historyResponse scPath stored newResponse)
  = from_option HTTPStatus StatusOK (last stored) /\
  body (historyResponse scPath stored newResponse) = [respOf scPath stored].
Proof. unfold historyResponse. by destruct (last stored). Qed.


(** The state after a schedule, with what its checkers hold. The
    interval is one at which the loop of [main] panics neither in
    [NewStatusChecker] nor in [StartPolling]. *)
Lemma run_from_empty (evs : list event) :
  30 <= pollingInterval cfg ->
  growthFits growSlack (Z.to_nat (capacityOf cfg)) ->
  validSchedule 0 evs = true ->
  exists w, run cfg growSlack evs emptyWorld = Some w /\
            tracks cfg w (fun a => outcomesAt a evs) (registeredNames evs).
Proof.
  intros Hd Hfits Hvalid.
  destruct (run_tracks cfg growSlack evs emptyWorld (fun _ => []) [] Hd Hfits
              (tracks_empty cfg)) as (w & Hrun & Htracks); [done | done |].
  by exists w.
Qed.


(** X6: under every schedule of registrations, rounds and requests, the
    history of each checker is the last [capacity] outcomes of its own
    poller, in order: the rounds of the other pollers and the requests
    leave it alone. Every history lies within its backing array, and no
    two checkers share one. The interval is any at which the checkers
    are created and their pollers started, 30 ns or more, and the arrays
    [append] asks for fit in memory. *)
Theorem histories_follow_pollers (evs : list event) :
  30 <= pollingInterval cfg ->
  growthFits growSlack (Z.to_nat (capacityOf cfg)) ->
  validSchedule 0 evs = true ->
  exists w,
    run cfg growSlack evs emptyWorld = Some w /\
    length (structs w) = length (registeredNames evs) /\
    (forall a sc, structs w !! a = Some sc ->
       registeredNames evs !! a = Some (moduleName sc) /\
       maxResults sc = capacityOf cfg /\
       wf (arrays w) (results sc) /\
       view (arrays w) (results sc)
         = lastN (Z.to_nat (capacityOf cfg)) (outcomesAt a evs)) /\
    (forall a b sca scb,
       a <> b -> structs w !! a = Some sca -> structs w !! b = Some scb ->
       arr (results sca) <> arr (results scb)).
Proof.
  intros Hd Hfits Hvalid.
  destruct (run_from_empty evs Hd Hfits Hvalid) as (w & Hrun & Hlen & Hall & Hdist & _).
  exists w. split; [done |]. split; [done |]. split; [|done].
  intros a sc Ha. by destruct (Hall a sc Ha) as (? & ? & ? & ? & _).
Qed.

(** X7: after every schedule the server can follow (at an interval of
    30 ns or more, with arrays of [append] that fit in memory) the
    registry holds exactly the names registered; each stands for the
    checker created last under it, which carries the name and the path
    made of it. *)
Theorem registry_after_schedule (evs : list event) :
  30 <= pollingInterval cfg ->
  growthFits growSlack (Z.to_nat (capacityOf cfg)) ->
  validSchedule 0 evs = true ->
  exists w,
    run cfg growSlack evs emptyWorld = Some w /\
    (forall name, name ∈ registeredNames evs <-> is_Some (registryOf w !! name)) /\
    forall name sc, registryOf w !! name = Some sc ->
      moduleName sc = name /\ path sc = ("/" ++ name ++ "/")%string /\
      exists a, structs w !! a = Some sc /\
                registeredNames evs !! a = Some name /\
                forall b, (a < b)%nat -> registeredNames evs !! b <> Some name.
Proof.
  intros Hd Hfits Hvalid.
  destruct (run_from_empty evs Hd Hfits Hvalid) as (w & Hrun & Hlen & Hall & _ & Hreg & Hdom).
  exists w. split; [done |].
  assert (Hfollow : forall name sc, registryOf w !! name = Some sc ->
            exists a, checkers w !! name = Some a /\ structs w !! a = Some sc)
    by apply registryOf_struct.
  split.
  - intros name. split.
    + intros Hin. destruct (Hdom name Hin) as [a Ha].
      destruct (Hreg name a Ha) as [Hat _].
      destruct (lookup_lt_is_Some_2 (structs w) a) as [sc Hsc].
      { rewrite Hlen. by eapply lookup_lt_Some. }
      exists sc. rewrite registryOf_lookup, Ha. done.
    + intros [sc (a & Ha & _)%Hfollow]. destruct (Hreg name a Ha) as [Hat _].
      by eapply list_elem_of_lookup_2.
  - intros name sc (a & Ha & Hsc)%Hfollow.
    destruct (Hreg name a Ha) as [Hat Hlast].
    destruct (Hall a sc Hsc) as (_ & _ & _ & Hname & Hpath).
    assert (moduleName sc = name) as Heq by congruence.
    split; [done |]. split; [by rewrite Hpath, Heq |]. by exists a.
Qed.


End ServerFacts.

(** The theorem on the sample schedule, under the default configuration. *)
Lemma histories_follow_pollers_witness :
  exists w,
    run defaultConfig (fun c => c) sampleSchedule emptyWorld = Some w /\
    length (structs w) = 2%nat /\
    forall sca scb, structs w !! 0%nat = Some sca -> structs w !! 1%nat = Some scb ->
                    arr (results sca) <> arr (results scb).
Proof.
  assert (Hd : 30 <= pollingInterval defaultConfig) by discriminate.
  assert (Hfits : growthFits (fun c => c) (Z.to_nat (capacityOf defaultConfig))).
  { intros c Hc. change (Z.to_nat (capacityOf defaultConfig)) with 288%nat in Hc.
    unfold sizeofCheckResult, maxAlloc. lia. }
  destruct (histories_follow_pollers defaultConfig (fun c => c) sampleSchedule Hd Hfits eq_refl)
    as (w & Hrun & Hlen & _ & Hdist).
  exists w. split; [exact Hrun |]. split; [exact Hlen |].
  intros sca scb. apply Hdist. discriminate.
Defined.

Lemma registry_after_schedule_witness :
  exists w,
    run defaultConfig (fun c => c) sampleSchedule emptyWorld = Some w /\
    is_Some (registryOf w !! "ubuntu"%string).
Proof.
  assert (Hd : 30 <= pollingInterval defaultConfig) by discriminate.
  assert (Hfits : growthFits (fun c => c) (Z.to_nat (capacityOf defaultConfig))).
  { intros c Hc. change (Z.to_nat (capacityOf defaultConfig)) with 288%nat in Hc.
    unfold sizeofCheckResult, maxAlloc. lia. }
  destruct (registry_after_schedule defaultConfig (fun c => c) sampleSchedule Hd Hfits eq_refl)
    as (w & Hrun & Hdom & _).
  exists w. split; [exact Hrun |]. apply Hdom.
  change (registeredNames sampleSchedule) with ["debian"; "ubuntu"]%string.
  apply list_elem_of_further, list_elem_of_here.
Defined.


Section ResponseFacts.
Variables (cfg : Config) (growSlack : nat -> nat).

Lemma outcomesAt_classified (a : nat) (evs : list event) (r : CheckResult) :
  r ∈ outcomesAt a evs -> exists now p, r = classify now p.
Proof.
  unfold outcomesAt. intros (ev & _ & Hev)%list_elem_of_omap.
  destruct ev as [| b now p |]; try done.
  destruct (decide (b = a)); [|done]. injection Hev as <-. by exists now, p.
Qed.

Lemma statusCode_error (code : Z) (message urlPath : string) :
  statusCode (writeJSONError newResponse code message urlPath) = code.
Proof. reflexivity. Qed.

(** X9: whatever the schedule and the request, the handler returns, the
    status of its response is 200, 400, 404 or 500, and it is 400
    exactly when the name in the path fails the validation. The state is
    any the server reaches at an interval of 30 ns or more, with arrays
    of [append] that fit in memory. *)
Theorem response_codes (evs : list event) :
  30 <= pollingInterval cfg ->
  growthFits growSlack (Z.to_nat (capacityOf cfg)) ->
  validSchedule 0 evs = true ->
  exists w,
    run cfg growSlack evs emptyWorld = Some w /\
    forall urlPath,
      exists reply,
        responseTo w urlPath = Some reply /\
        (statusCode reply = 200 \/ statusCode reply = 400 \/
         statusCode reply = 404 \/ statusCode reply = 500) /\
        (statusCode reply = 400 <->
         isValidModulePath (TrimPrefix urlPath "/status/") = false).
Proof.
  intros Hd Hfits Hvalid.
  destruct (run_from_empty cfg growSlack evs Hd Hfits Hvalid) as (w & Hrun & Htracks).
  pose proof Htracks as (Hlen & Hall & _).
  exists w. split; [done |]. intros urlPath.
  unfold responseTo, statusHandler.
  set (module := TrimPrefix urlPath "/status/").
  destruct (isEmpty module) eqn:Hempty.
  { apply isEmpty_true in Hempty. rewrite Hempty. simpl. eexists. split; [reflexivity |].
    rewrite statusCode_error. split; [right; by left | done]. }
  destruct (isValidModulePath module) eqn:Hmodule; simpl.
  2: { eexists. split; [reflexivity |].
       rewrite statusCode_error. split; [right; by left | done]. }
  destruct (registryOf w !! module) as [sc|] eqn:Hsc.
  2: { simpl. eexists. split; [reflexivity |].
       rewrite statusCode_error. split; [right; right; by left | done]. }
  destruct (registryOf_struct _ _ _ Hsc) as (a & _ & Ha).
  pose proof (Hall a sc Ha) as Htr. pose proof Htr as (Hwf & Hview & _).
  destruct (ServeHTTP_response (arrays w) sc newResponse Hwf
              (checkerTracks_fits cfg _ _ _ _ _ (capacity_fits _ (or_intror Hd)) Htr))
    as (h' & -> & _).
  simpl. eexists. split; [reflexivity |].
  destruct (historyResponse_status (path sc) (view (arrays w) (results sc))) as [-> _].
  destruct (last (view (arrays w) (results sc))) as [latest|] eqn:Hlast; simpl.
  2: { split; [by left | done]. }
  assert (Hin : latest ∈ outcomesAt a evs).
  { apply last_Some_elem_of in Hlast. rewrite Hview in Hlast.
    unfold lastN in Hlast. by eapply subseteq_drop. }
  destruct (outcomesAt_classified a evs latest Hin) as (now & p & ->).
  destruct (classify_status now p) as [[_ ->] | [_ [-> | ->]]];
    (split; [auto | done]).
Qed.

(** X10: a request returns and changes no checker, no entry of the
    registry and no array that exists (it only allocates its copy), so
    every history reads as before, and the responses to the requests
    that follow are the ones they would have had without it. The state
    is any the server reaches at an interval of 30 ns or more, with
    arrays of [append] that fit in memory. *)
Theorem queries_change_nothing (evs : list event) :
  30 <= pollingInterval cfg ->
  growthFits growSlack (Z.to_nat (capacityOf cfg)) ->
  validSchedule 0 evs = true ->
  exists w,
    run cfg growSlack evs emptyWorld = Some w /\
    forall urlPath,
      exists w',
        queryAt urlPath w = Some w' /\
        structs w' = structs w /\
        checkers w' = checkers w /\
        registryOf w' = registryOf w /\
        (forall i, (i < length (arrays w))%nat -> arrays w' !! i = arrays w !! i) /\
        (forall a sc, structs w !! a = Some sc ->
           view (arrays w') (results sc) = view (arrays w) (results sc)) /\
        (forall later, responseTo w' later = responseTo w later).
Proof.
  intros Hd Hfits Hvalid.
  pose proof (capacity_fits _ (or_intror Hd)) as Hfit. fold (capacityOf cfg) in Hfit.
  destruct (run_from_empty cfg growSlack evs Hd Hfits Hvalid) as (w & Hrun & Htracks).
  exists w. split; [done |]. intros urlPath.
  destruct (tracks_query cfg w _ _ urlPath Hfit Htracks)
    as (w' & Hquery & Hstructs & Hcheckers & Hframe & Htracks').
  exists w'. split; [done |]. split; [done |]. split; [done |].
  assert (Hregistry : registryOf w' = registryOf w)
    by (unfold registryOf; by rewrite Hstructs, Hcheckers).
  pose proof Htracks as (_ & Hall & _). pose proof Htracks' as (_ & Hall' & _).
  assert (Hviews : forall a sc, structs w !! a = Some sc ->
            view (arrays w') (results sc) = view (arrays w) (results sc)).
  { intros a sc Ha. destruct (Hall a sc Ha) as (_ & -> & _).
    rewrite <- Hstructs in Ha. by destruct (Hall' a sc Ha) as (_ & -> & _). }
  split; [done |]. split; [done |]. split; [done |].
  intros later. unfold responseTo. rewrite Hregistry. unfold statusHandler.
  destruct (isEmpty _); [done |]. destruct (negb _); [done |].
  destruct (registryOf w !! _) as [sc|] eqn:Hsc; [|done].
  destruct (registryOf_struct _ _ _ Hsc) as (a & _ & Ha).
  pose proof (Hall a sc Ha) as Htr. pose proof Htr as (Hwf & _).
  assert (Htr' : checkerTracks cfg w' (fun a => outcomesAt a evs) (registeredNames evs) a sc)
    by (apply Hall'; by rewrite Hstructs).
  pose proof Htr' as (Hwf' & _).
  destruct (ServeHTTP_response (arrays w) sc newResponse Hwf
              (checkerTracks_fits cfg _ _ _ _ _ Hfit Htr)) as (h1 & -> & _).
  destruct (ServeHTTP_response (arrays w') sc newResponse Hwf'
              (checkerTracks_fits cfg _ _ _ _ _ Hfit Htr')) as (h2 & -> & _).
  simpl. by rewrite (Hviews a sc Ha).
Qed.

End ResponseFacts.

Lemma response_codes_witness :
  exists w,
    run defaultConfig (fun c => c) sampleSchedule emptyWorld = Some w /\
    exists reply,
      responseTo w "/status/bad!name" = Some reply /\
      (statusCode reply = 400 <->
       isValidModulePath (TrimPrefix "/status/bad!name" "/status/") = false).
Proof.
  assert (Hd : 30 <= pollingInterval defaultConfig) by discriminate.
  assert (Hfits : growthFits (fun c => c) (Z.to_nat (capacityOf defaultConfig))).
  { intros c Hc. change (Z.to_nat (capacityOf defaultConfig)) with 288%nat in Hc.
    unfold sizeofCheckResult, maxAlloc. lia. }
  destruct (response_codes defaultConfig (fun c => c) sampleSchedule Hd Hfits eq_refl)
    as (w & Hrun & Hcodes).
  exists w. split; [exact Hrun |].
  destruct (Hcodes "/status/bad!name"%string) as (reply & Hreply & _ & Hbad).
  exists reply. split; [exact Hreply | exact Hbad].
Defined.

Lemma queries_change_nothing_witness :
  exists w w',
    run defaultConfig (fun c => c) sampleSchedule emptyWorld = Some w /\
    queryAt "/status/ubuntu" w = Some w' /\
    responseTo w' "/status/debian" = responseTo w "/status/debian".
Proof.
  assert (Hd : 30 <= pollingInterval defaultConfig) by discriminate.
  assert (Hfits : growthFits (fun c => c) (Z.to_nat (capacityOf defaultConfig))).
  { intros c Hc. change (Z.to_nat (capacityOf defaultConfig)) with 288%nat in Hc.
    unfold sizeofCheckResult, maxAlloc. lia. }
  destruct (queries_change_nothing defaultConfig (fun c => c) sampleSchedule Hd Hfits eq_refl)
    as (w & Hrun & Hsame).
  destruct (Hsame "/status/ubuntu"%string) as (w' & Hquery & _ & _ & _ & _ & _ & Hlater).
  exists w, w'. split; [exact Hrun |]. split; [exact Hquery |].
  exact (Hlater "/status/debian"%string).
Defined.

(** ** The memory of a history *)

Section MemoryFacts.
Variables (growSlack : nat -> nat) (slack : nat).

Lemma performCheck_bounded (now : Time) (p : ProbeResult) (h h' : Heap)
    (sc sc' : StatusChecker) :
  1 <= maxResults sc ->
  (forall c, (c <= Z.to_nat (maxResults sc))%nat -> (growSlack c <= slack)%nat) ->
  boundedHistory (Z.to_nat (maxResults sc) + 1 + slack) h sc ->
  performCheck growSlack now p (h, sc) = Some (h', sc') ->
  maxResults sc' = maxResults sc /\
  boundedHistory (Z.to_nat (maxResults sc) + 1 + slack) h' sc'.
Proof.
  intros Hmax Hslack (a & Ha & Hend & Hlen & Hfull & Hbound).
  unfold performCheck, append, from.
  destruct (Nat.ltb_spec (len (results sc)) (cap (results sc))) as [Hroom | Hnoroom].
  - (* in place *)
    set (a' := <[(off (results sc) + len (results sc))%nat := classify now p]> a).
    assert (Ha' : alter (fun a => <[(off (results sc) + len (results sc))%nat
                                    := classify now p]> a) (arr (results sc)) h
                    !! arr (results sc) = Some a').
    { by rewrite list_lookup_alter_eq, Ha. }
    assert (Hla : length a' = length a) by apply length_insert.
    cbn [mbind option_bind]. cbn [len].
    destruct (Z.gtb_spec (Z.of_nat (S (len (results sc)))) (maxResults sc)).
    + simpl. intros [= <- <-]. split; [done |].
      exists a'. simpl. repeat split; try done; lia.
    + intros [= <- <-]. split; [done |].
      exists a'. simpl. repeat split; try done; lia.
  - (* into a new array *)
    assert (Hcap : cap (results sc) = len (results sc)) by lia.
    assert (Hview : length (view h (results sc)) = len (results sc)).
    { apply view_length. exists a. repeat split; try done; lia. }
    set (a' := view h (results sc) ++
               classify now p :: replicate (growSlack (cap (results sc))) zeroCheckResult).
    assert (Hla : length a' = (len (results sc) + 1 + growSlack (cap (results sc)))%nat).
    { subst a'. rewrite length_app. simpl. rewrite length_replicate. lia. }
    assert (Hg : (growSlack (cap (results sc)) <= slack)%nat) by (apply Hslack; lia).
    destruct (_ <=? maxAlloc); [|done].
    cbn [mbind option_bind]. cbn [len].
    destruct (Z.gtb_spec (Z.of_nat (S (len (results sc)))) (maxResults sc)).
    + simpl. intros [= <- <-]. split; [done |].
      exists a'. simpl. rewrite list_lookup_middle by done.
      repeat split; try done; lia.
    + intros [= <- <-]. split; [done |].
      exists a'. simpl. rewrite list_lookup_middle by done.
      repeat split; try done; lia.
Qed.

Lemma runChecks_bounded (ticks : list (Time * ProbeResult)) (h h' : Heap)
    (sc sc' : StatusChecker) :
  1 <= maxResults sc ->
  (forall c, (c <= Z.to_nat (maxResults sc))%nat -> (growSlack c <= slack)%nat) ->
  boundedHistory (Z.to_nat (maxResults sc) + 1 + slack) h sc ->
  runChecks growSlack ticks (h, sc) = Some (h', sc') ->
  boundedHistory (Z.to_nat (maxResults sc) + 1 + slack) h' sc'.
Proof.
  revert h sc. induction ticks as [|[now p] ticks IH]; intros h sc Hmax Hslack Hb.
  - by intros [= <- <-].
  - rewrite runChecks_cons.
    destruct (performCheck growSlack now p (h, sc)) as [[h1 sc1]|] eqn:Hstep; [|done].
    destruct (performCheck_bounded now p h h1 sc sc1 Hmax Hslack Hb Hstep) as [Heq Hb1].
    simpl. intros Hrun. rewrite <- Heq in *. by eapply IH.
Qed.

End MemoryFacts.

(** A new checker owns an array of [maxResults] cells, all of it the
    capacity of its empty history. *)
Lemma NewStatusChecker_array (interval : Z) (h h' : Heap) (name : string)
    (sc : StatusChecker) :
  NewStatusChecker interval h name = Some (h', sc) ->
  h' !! arr (results sc) = Some (replicate (Z.to_nat (maxResults sc)) zeroCheckResult) /\
  off (results sc) = 0%nat /\ cap (results sc) = Z.to_nat (maxResults sc).
Proof.
  unfold NewStatusChecker. destruct (interval =? 0); [done |].
  unfold make. destruct (_ && _); [|done].
  simpl. intros [= <- <-]. simpl. by rewrite list_lookup_middle.
Qed.

(** X11: the history of a checker is kept in bounded memory: if [append]
    adds at most [slack] spare cells when it moves a slice of at most
    [capacity] elements, the backing array of the history never has more
    than [capacity + 1 + slack] cells, whatever the number of rounds. The
    interval is any at which the checker is created, and the arrays
    [append] asks for fit in memory. *)
Theorem history_memory_bounded (interval : Z) (growSlack : nat -> nat) (slack : nat)
    (h0 : Heap) (name : string) (ticks : list (Time * ProbeResult)) :
  interval < 0 \/ 30 <= interval ->
  growthFits growSlack (Z.to_nat (Z.max 1 (Z.quot (24 * Hour) interval))) ->
  (forall c, (c <= Z.to_nat (Z.max 1 (Z.quot (24 * Hour) interval)))%nat ->
             (growSlack c <= slack)%nat) ->
  exists h sc a,
    checkerAfter interval growSlack h0 name ticks = Some (h, sc) /\
    h !! arr (results sc) = Some a /\
    (off (results sc) + cap (results sc) = length a)%nat /\
    (length a <= Z.to_nat (Z.max 1 (Z.quot (24 * Hour) interval)) + 1 + slack)%nat.
Proof.
  intros Hne Hfits Hslack.
  destruct (checkerAfter_spec interval growSlack h0 name ticks Hne Hfits)
    as (h & sc & Hafter & Hmax & _).
  pose proof Hafter as Hrun. unfold checkerAfter in Hrun.
  destruct (NewStatusChecker_spec interval h0 name Hne)
    as (h1 & sc1 & Hnew & Hmax1 & Hwf1 & Hview1 & Hcap1 & Harr1 & _).
  rewrite Hnew in Hrun. simpl in Hrun.
  assert (Hlen1 : len (results sc1) = 0%nat).
  { pose proof (view_length _ _ Hwf1) as Hl. by rewrite Hview1 in Hl. }
  assert (Hb1 : boundedHistory (Z.to_nat (maxResults sc1) + 1 + slack) h1 sc1).
  { destruct (NewStatusChecker_array interval h0 h1 name sc1 Hnew) as (Ha & Hoff & Hcap).
    eexists. split; [exact Ha |]. rewrite length_replicate. repeat split; lia. }
  destruct (runChecks_bounded growSlack slack ticks h1 h sc1 sc)
    as (a & Ha & Hend & _ & _ & Hbound);
    [rewrite Hmax1; lia | rewrite Hmax1; exact Hslack | exact Hb1 | exact Hrun |].
  rewrite Hmax1 in Hbound. by exists h, sc, a.
Qed.

(** The theorem on an [append] that doubles the capacity, an interval of
    twelve hours and three rounds: no more than four cells. *)
Lemma history_memory_bounded_witness :
  exists h sc a,
    checkerAfter (12 * Hour) (fun c => c) [] "debian" sampleTicks = Some (h, sc) /\
    h !! arr (results sc) = Some a /\
    (off (results sc) + cap (results sc) = length a)%nat /\
    (length a <= Z.to_nat (Z.max 1 (Z.quot (24 * Hour) (12 * Hour))) + 1 + 2)%nat.
Proof.
  apply (history_memory_bounded (12 * Hour) (fun c => c) 2 [] "debian" sampleTicks).
  - right. discriminate.
  - intros c Hc. change (Z.to_nat (Z.max 1 (Z.quot (24 * Hour) (12 * Hour)))) with 2%nat in Hc.
    unfold sizeofCheckResult, maxAlloc. lia.
  - intros c. change (Z.to_nat (Z.max 1 (Z.quot (24 * Hour) (12 * Hour)))) with 2%nat. lia.
Defined.

(** ** Start-up *)

Section StartupFacts.
Variables (cfg : Config) (growSlack : nat -> nat).




End StartupFacts.


(** An interval of twenty nanoseconds, and the negative one that [init]
    makes of 9223372037 seconds: [main] panics at the first module. *)
Example startup_panics :
  startup (mkConfig "rsync://sagres.c3sl.ufpr.br/" 20 "8080") (fun c => c) sampleListing
  = Panicked /\
  pollingInterval (init {[ intervalKey := "9223372037"%string ]}) = -9223372036709551616 /\
  startup (init {[ intervalKey := "9223372037"%string ]}) (fun c => c) sampleListing
  = Panicked.
Proof. repeat split; reflexivity. Qed.

(** ** The listing of the root *)

Lemma endpointsOf_lookup (modules : list string) (module : string) :
  endpointsOf modules !! module
  = if decide (module ∈ modules) then Some ("/status/" ++ module)%string else None.
Proof.
  unfold endpointsOf.
  assert (Hgen : forall acc : gmap string string,
            foldl (fun endpoints m => <[m := ("/status/" ++ m)%string]> endpoints) acc modules
              !! module
            = if decide (module ∈ modules) then Some ("/status/" ++ module)%string
              else acc !! module).
  { induction modules as [|m modules IH]; intros acc; cbn [foldl].
    - by rewrite decide_False by apply not_elem_of_nil.
    - rewrite IH. destruct (decide (module ∈ modules)) as [Hin | Hout].
      + by rewrite decide_True by (by right).
      + destruct (decide (m = module)) as [-> | Hne].
        * rewrite lookup_insert_eq. by rewrite decide_True by left.
        * rewrite lookup_insert_ne by done.
          rewrite decide_False; [done |]. by intros [?|?]%elem_of_cons. }
  rewrite Hgen. by destruct (decide _).
Qed.

(** X13: the root handler answers [/] with status 200, the endpoint
    [/status/<name>] for exactly the discovered names, and the directories
    that discovery reads off the same listing (none when the command
    fails); it answers every other path with the error object and 404,
    without running the command. *)
Theorem rootHandler_listing (cfg : Config) (modules : list string) (urlPath : string)
    (listing : ProbeResult) :
  (urlPath <> "/"%string ->
   exists message,
     isErrorResponse (writeJSONError newResponse 404 message urlPath) 404 message urlPath /\
     forall listing', rootHandler cfg modules newResponse urlPath listing'
                      = RootError (writeJSONError newResponse 404 message urlPath)) /\
  (urlPath = "/"%string ->
   exists rw doc,
     rootHandler cfg modules newResponse urlPath listing = RootListing rw doc /\
     statusCode rw = 200 /\
     header rw !! "Content-Type"%string = Some "application/json"%string /\
     listingSuccess doc = true /\
     (forall name, monitoredModules doc !! name
                   = if decide (name ∈ modules) then Some ("/status/" ++ name)%string
                     else None) /\
     (forall dirs, discoverModules listing = Discovered dirs -> rsyncDirectories doc = dirs) /\
     (probeErr listing <> None -> rsyncDirectories doc = [])).
Proof.
  unfold rootHandler. split.
  - intros Hpath. apply String.eqb_neq in Hpath. rewrite Hpath. simpl.
    eexists. split; [apply writeJSONError_spec | done].
  - intros ->. simpl. eexists _, _. split; [reflexivity |]. simpl.
    repeat split; try done.
    + intros name. apply endpointsOf_lookup.
    + unfold discoverModules. destruct (probeErr listing); [done |].
      destruct (scanLines (probeOut listing)) as [lines tooLong].
      destruct tooLong; [done |]. by intros dirs [= <-].
    + by destruct (probeErr listing).
Qed.

(** The theorem on the root, and on a path that is not served. *)
Lemma rootHandler_listing_witness :
  (exists message,
     forall listing', rootHandler defaultConfig ["debian"; "ubuntu"]%string newResponse
                        "/favicon.ico" listing'
                      = RootError (writeJSONError newResponse 404 message "/favicon.ico")) /\
  exists rw doc,
    rootHandler defaultConfig ["debian"; "ubuntu"]%string newResponse "/" sampleListing
      = RootListing rw doc /\
    statusCode rw = 200.
Proof.
  pose proof (rootHandler_listing defaultConfig ["debian"; "ubuntu"]%string
                "/favicon.ico" sampleListing) as [Hother _].
  pose proof (rootHandler_listing defaultConfig ["debian"; "ubuntu"]%string
                "/" sampleListing) as [_ Hroot].
  split.
  - destruct Hother as (message & _ & Hall); [discriminate |]. by exists message.
  - destruct (Hroot eq_refl) as (rw & doc & Hreply & Hstatus & _). by exists rw, doc.
Defined.

(** X14: a discovered name that fails the validation is still listed by
    the root handler with its endpoint, and that endpoint answers 400
    whatever the registry holds: the module is monitored, and cannot be
    queried. *)
Theorem advertised_but_rejected (cfg : Config) (listing : ProbeResult)
    (modules : list string) (name : string) :
  discoverModules listing = Discovered modules ->
  name ∈ modules -> isValidModulePath name = false ->
  (exists rw doc,
     rootHandler cfg modules newResponse "/" listing = RootListing rw doc /\
     monitoredModules doc !! name = Some ("/status/" ++ name)%string) /\
  forall (reg : gmap string StatusChecker) (h : Heap),
    exists reply,
      statusHandler reg h newResponse ("/status/" ++ name) = Some (h, reply) /\
      statusCode reply = 400.
Proof.
  intros Hdisc Hin Hinvalid. split.
  - eexists _, _. split; [reflexivity |]. simpl.
    rewrite endpointsOf_lookup. by rewrite decide_True.
  - intros reg h. unfold statusHandler.
    change (TrimPrefix ("/status/" ++ name) "/status/") with name.
    destruct (isEmpty name); [by eexists |]. rewrite Hinvalid. by eexists.
Qed.

(** The theorem on a listing with the module [lost+found]. *)
Lemma advertised_but_rejected_witness :
  discoverModules plusListing = Discovered ["debian"; "lost+found"]%string /\
  exists reply,
    statusHandler ∅ [] newResponse "/status/lost+found" = Some ([], reply) /\
    statusCode reply = 400.
Proof.
  assert (Hdisc : discoverModules plusListing = Discovered ["debian"; "lost+found"]%string)
    by reflexivity.
  split; [exact Hdisc |].
  refine (proj2 (advertised_but_rejected defaultConfig plusListing
                   ["debian"; "lost+found"]%string "lost+found"
                   Hdisc _ eq_refl) ∅ []).
  apply list_elem_of_further, list_elem_of_here.
Defined.

(** ** The error text of a down result *)

Section ErrorTextFacts.

Lemma skip_suffix (k : nat) (s : string) : exists pre : string, s = (pre ++ skip k s)%string.
Proof.
  revert s. induction k as [|k IH]; intros [|c s]; simpl; try by exists ""%string.
  destruct (IH s) as [pre Hpre]. exists (String c pre). simpl. by rewrite <- Hpre.
Qed.

Lemma TrimLeftSpace_suffix (s : string) :
  exists pre : string, s = (pre ++ TrimLeftSpace s)%string.
Proof.
  induction s as [s IH] using string_length_ind.
  rewrite TrimLeftSpace_eq. destruct (spaceWidth s) as [|k] eqn:Hw; [by exists ""%string |].
  destruct (skip_suffix (S k) s) as [pre1 H1].
  destruct (IH (skip (S k) s)) as [pre2 H2].
  { rewrite length_skip. pose proof (spaceWidth_bounds s). lia. }
  exists (pre1 ++ pre2)%string. rewrite append_assoc, <- H2. exact H1.
Qed.

(** Trimming adds no byte: what is left is a piece of the string. *)
Lemma TrimSpace_bytes (s : string) (c : ascii) :
  In c (bytesOf (TrimSpace s)) -> In c (bytesOf s).
Proof.
  unfold TrimSpace. intros Hin.
  destruct (TrimLeftSpace_suffix s) as [pre Hpre].
  destruct (TrimRightSpace_prefix (TrimLeftSpace s)) as [suffix Hsuf].
  rewrite Hpre, Hsuf, !bytesOf_append, !in_app_iff. tauto.
Qed.

Lemma firstNonBlank_line (lines : list string) (l : string) :
  firstNonBlank lines = Some l ->
  exists line, line ∈ lines /\ l = TrimSpace line /\ l <> ""%string.
Proof.
  unfold firstNonBlank. destruct (list_find _ lines) as [[i line]|] eqn:E; [|done].
  apply list_find_Some in E as (Hi & Hne & _). simpl. intros [= <-].
  exists line. split; [by eapply list_elem_of_lookup_2 | done].
Qed.

End ErrorTextFacts.

(** X15: the error text of a down result is never empty, is one line (it
    holds no line feed) and starts with no white space. *)
Theorem down_error_text (now : Time) (outputStr : string) (err : execError) :
  let r := classify now (mkProbe outputStr (Some err)) in
  Error r <> ""%string /\
  ~ In LF (bytesOf (Error r)) /\
  spaceWidth (Error r) = 0%nat.
Proof.
  simpl. rewrite firstLine_spec.
  destruct (firstNonBlank (Split outputStr LF)) as [l|] eqn:E; simpl.
  - destruct (firstNonBlank_line _ _ E) as (line & Hin & -> & Hne).
    split; [done |]. split; [|apply TrimSpace_width].
    intros Hlf%TrimSpace_bytes.
    pose proof (Split_no_sep outputStr LF) as Hall.
    rewrite Forall_forall in Hall. by apply (Hall line).
  - split; [done |]. split; [|reflexivity].
    vm_compute. intuition discriminate.
Qed.

(** ** The failures of discovery *)

Lemma scanPieces_tooLong (pieces : list string) :
  (scanPieces pieces).2 = true <-> Exists tooLongLine pieces.
Proof.
  unfold tooLongLine. induction pieces as [|piece rest IH]; cbn [scanPieces].
  - split; [done | by intros ?%Exists_nil].
  - rewrite Exists_cons.
    destruct (Z.leb_spec MaxScanTokenSize (Z.of_nat (String.length piece))) as [Hlong | Hshort].
    + split; [by left | done].
    + destruct rest as [|next rest].
      * simpl. split; [done | intros [? | ?%Exists_nil]; [lia | done]].
      * destruct (scanPieces (next :: rest)) as [lines tooLong]. simpl in *.
        rewrite IH. split; [by right | intros [? | ?]; [lia | done]].
Qed.

(** X16: discovery fails in two ways only: with the error of the command
    when there is one, and else with a read error exactly when a line of
    the output has 65536 bytes or more. *)
Theorem discoverModules_failures (listing : ProbeResult) :
  (forall err, probeErr listing = Some err ->
     discoverModules listing = CommandFailed err (probeOut listing)) /\
  (probeErr listing = None ->
     (discoverModules listing = ReadFailed <->
      Exists tooLongLine (Split (probeOut listing) LF)) /\
     (~ Exists tooLongLine (Split (probeOut listing) LF) ->
      exists modules, discoverModules listing = Discovered modules)).
Proof.
  unfold discoverModules. split.
  - by intros err ->.
  - intros ->. rewrite <- scanPieces_tooLong. unfold scanLines.
    destruct (scanPieces (Split (probeOut listing) LF)) as [lines [|]]; simpl.
    + split; [done | intros []; done].
    + split; [done |]. intros _. by eexists.
Qed.
